(** * cat-curve-calc: the catenary solvers, embedded and verified

    The repository holds two solvers for the parameters [(a, b, c)] of the
    catenary [y = a * cosh ((x - b) / a) + c] through two points with a given
    arc length:

    - [src/cat.tsx]: a damped Newton-Raphson iteration over the three governing
      equations, started from several initial guesses (module [Cat]);
    - the application file: a fixed-point iteration on one transcendental
      equation with closed-form offsets, with [sortX], [cartDist] and
      [evaluateCatenary] (module [App]).

    JavaScript numbers are IEEE 754 binary64 values: they are modelled by the
    primitive floats of Rocq, whose arithmetic, comparisons and square root are
    the IEEE operations.  The transcendental functions of the [Math] object are
    implementation-approximated (ECMA-262, function properties of the Math
    object): they form an interface, the class [MathObject], which fixes only
    special values that the standard fixes.

    The formulas of the two solvers are also written over any numbers (module
    [Formulas]): at the floats they are the code, and at the real numbers
    (module [Exact]) they are the code in exact arithmetic, where the matrix
    of [jacobian] is compared with the derivatives of [equations], and the
    linear solver and the offsets of the fixed-point solver are shown
    correct. *)

From Stdlib Require Import Floats ZArith List Bool Lia.
From Stdlib Require Reals Lra.
Import ListNotations.

Set Warnings "-inexact-float".
#[local] Open Scope float_scope.

(** ** JavaScript numbers *)

Module JS.

(** [x > y]; like [<] and [<=] it is false on a NaN. *)
Definition gtb (x y : float) : bool := y <? x.

(** The global [isFinite], on a number. *)
Definition isFinite (x : float) : bool := is_finite x.

(** [Math.PI], the binary64 value nearest to pi. *)
Definition PI : float := 0x1.921fb54442d18p+1.

(** Reading an array of numbers at an index: an index out of range reads
    [undefined], which every arithmetic operator turns into NaN. *)
Definition get (l : list float) (i : nat) : float := nth i l nan.

(** Reading a row of an array of arrays.  The linear solver is only called on
    the Jacobian, whose three rows exist (reading an entry of a missing row
    would be a [TypeError], which is not modelled: a missing row is given as
    the empty array). *)
Definition row (A : list (list float)) (i : nat) : list float := nth i A [].

(** [l[i] = v] for an index inside the array (the solver never writes
    outside: its arrays have fixed sizes 3 and 4). *)
Fixpoint set {T : Type} (l : list T) (i : nat) (v : T) : list T :=
  match l, i with
  | [], _ => []
  | _ :: t, O => v :: t
  | h :: t, S j => h :: set t j v
  end.

(** Outcome of a call that may [throw]. *)
Inductive result (E T : Type) : Type :=
| Return (v : T)
| Throw (e : E).
Arguments Return {E T} v.
Arguments Throw {E T} e.

(** [try { body } catch { handler }]. *)
Definition try_catch {E T U : Type} (body : result E T)
    (k : T -> U) (handler : U) : U :=
  match body with
  | Return v => k v
  | Throw _ => handler
  end.

End JS.

Import JS.

Infix ">?" := JS.gtb (at level 70, no associativity) : float_scope.

(** ** The [Math] object

    [Math.sqrt] and [Math.abs] are the IEEE operations.  [cosh], [sinh],
    [acosh], [log] and the power operation ([Math.pow], and the operator
    [**]) are approximated by the implementation; ECMA-262 fixes their values
    at NaN, at the infinities and outside their domains, and only those
    clauses that the proofs below use are recorded. *)

Class MathObject : Type := {
  cosh : float -> float;
  sinh : float -> float;
  acosh : float -> float;
  log : float -> float;
  pow : float -> float -> float;
  (** Math.cosh: +inf at +inf. *)
  cosh_infinity : cosh infinity = infinity;
  (** Math.sinh: +inf at +inf. *)
  sinh_infinity : sinh infinity = infinity;
  (** Math.acosh: NaN at NaN and below 1, +inf at +inf. *)
  acosh_nan : acosh nan = nan;
  acosh_below_one : forall x, (x <? 1) = true -> acosh x = nan;
  acosh_infinity : acosh infinity = infinity
}.

(** ** Data shared by the two files *)

(** A point [[x, y]]. *)
Definition Point : Type := float * float.

(** The object [{a, b, c}] that both solvers return. *)
Record Params : Type := { a : float; b : float; c : float }.

(** ** [src/cat.tsx]: the Newton-Raphson solver *)

Module Cat.

(** The errors [solveCatenary] throws, with the values their messages
    print. *)
Inductive Error : Type :=
| ArcLengthNotPositive
    (* "Arc length must be positive" *)
| SameXCoordinates
    (* "Points must have different x-coordinates" *)
| ArcLengthTooShort (s minArcLength : float).
    (* `Arc length ${s} is less than minimum possible ${minArcLength}` *)

Definition Vec3 : Type := float * float * float.

Section Solver.

Context {M : MathObject}.

(** The inner functions close over the input. *)
Variables x1 y1 x2 y2 s : float.

(** The straight-line distance, computed for the third validation test. *)
Definition minArcLength : float :=
  sqrt (pow (x2 - x1) 2 + pow (y2 - y1) 2).

Definition equations (params : Vec3) : Vec3 :=
  let '(a, b, c) := params in
  if a <=? 0 then (infinity, infinity, infinity)
  else
    let arg1 := (x1 - b) / a in
    let arg2 := (x2 - b) / a in
    let cosh1 := cosh arg1 in
    let cosh2 := cosh arg2 in
    let sinh1 := sinh arg1 in
    let sinh2 := sinh arg2 in
    let eq1 := a * cosh1 + c - y1 in
    let eq2 := a * cosh2 + c - y2 in
    let eq3 := a * (sinh2 - sinh1) - s in
    (eq1, eq2, eq3).

Definition jacobian (params : Vec3) : list (list float) :=
  let '(a, b, _) := params in
  if a <=? 0 then [[0; 0; 0]; [0; 0; 0]; [0; 0; 0]]
  else
    let arg1 := (x1 - b) / a in
    let arg2 := (x2 - b) / a in
    let cosh1 := cosh arg1 in
    let cosh2 := cosh arg2 in
    let sinh1 := sinh arg1 in
    let sinh2 := sinh arg2 in
    let J11 := cosh1 - arg1 * sinh1 in
    let J12 := sinh1 in
    let J13 := 1 in
    let J21 := cosh2 - arg2 * sinh2 in
    let J22 := sinh2 in
    let J23 := 1 in
    let J31 := sinh2 - sinh1 - (arg2 * cosh2 - arg1 * cosh1) in
    let J32 := cosh1 - cosh2 in
    let J33 := 0 in
    [[J11; J12; J13]; [J21; J22; J23]; [J31; J32; J33]].

(** *** Gaussian elimination

    The loops of [solveLinearSystem] are folds over their index ranges;
    the state of the outer loops is the array they update in place. *)

Definition n : nat := 3.

(** [for (let k = lo; k < hi; k++)], and [k <= hi] through [hi + 1]. *)
Definition range (lo hi : nat) : list nat := seq lo (hi - lo).

Definition findPivot (augmented : list (list float)) (i : nat) : nat :=
  fold_left
    (fun maxRow k =>
       if abs (get (row augmented k) i) >? abs (get (row augmented maxRow) i)
       then k else maxRow)
    (range (i + 1) n) i.

(** [[augmented[i], augmented[maxRow]] = [augmented[maxRow], augmented[i]]] *)
Definition swapRows (augmented : list (list float)) (i maxRow : nat)
  : list (list float) :=
  let ri := row augmented i in
  let rm := row augmented maxRow in
  set (set augmented i rm) maxRow ri.

Definition eliminateRow (augmented : list (list float)) (i k : nat)
  : list (list float) :=
  let factor := get (row augmented k) i / get (row augmented i) i in
  fold_left
    (fun aug j =>
       set aug k
         (set (row aug k) j
            (get (row aug k) j - factor * get (row aug i) j)))
    (range i (n + 1)) augmented.

Definition forwardElimination (augmented : list (list float))
  : list (list float) :=
  fold_left
    (fun aug i =>
       let maxRow := findPivot aug i in
       let aug := swapRows aug i maxRow in
       fold_left (fun aug k => eliminateRow aug i k) (range (i + 1) n) aug)
    (range 0 n) augmented.

Definition backSubstitution (augmented : list (list float)) : list float :=
  fold_left
    (fun solution i =>
       let solution := set solution i (get (row augmented i) n) in
       let solution :=
         fold_left
           (fun sol j =>
              set sol i (get sol i - get (row augmented i) j * get sol j))
           (range (i + 1) n) solution in
       set solution i (get solution i / get (row augmented i) i))
    (rev (range 0 n)) (repeat 0 n).

(** The body has no [throw]: every call returns its [solution]. *)
Definition solveLinearSystem (A : list (list float)) (b : list float)
  : result Error (list float) :=
  let augmented :=
    map (fun '(row, i) => row ++ [get b i]) (combine A (seq 0 (length A))) in
  let augmented := forwardElimination augmented in
  Return (backSubstitution augmented).

(** *** Newton-Raphson with a line search *)

(** The inner loop [for (let ls = 0; ls < 10; ls++)]: [budget] is
    [10 - ls].  It yields the value of [params] after the loop. *)
Fixpoint lineSearchFrom (budget ls : nat) (stepSize : float)
    (params : Vec3) (delta : list float) (residual : float) : Vec3 :=
  match budget with
  | O => params
  | S budget' =>
      let '(p0, p1, p2) := params in
      let newParams :=
        (p0 + stepSize * get delta 0,
         p1 + stepSize * get delta 1,
         p2 + stepSize * get delta 2) in
      let '(np0, _, _) := newParams in
      if np0 >? 0 then
        let '(r0, r1, r2) := equations newParams in
        let newNorm := sqrt (pow r0 2 + pow r1 2 + pow r2 2) in
        if (newNorm <? residual) || Nat.eqb ls 9 then newParams
        else lineSearchFrom budget' (S ls) (stepSize * 0.5)
               params delta residual
      else lineSearchFrom budget' (S ls) (stepSize * 0.5)
             params delta residual
  end.

Definition lineSearch (params : Vec3) (delta : list float)
    (residual : float) : Vec3 :=
  lineSearchFrom 10 0 1.0 params delta residual.

(** The outer loop [for (let iter = 0; iter < maxIter; iter++)]:
    [fuel] is [maxIter - iter]; leaving the loop returns [null]. *)
Fixpoint iterate (fuel : nat) (tolerance : float) (params : Vec3)
  : option Vec3 :=
  match fuel with
  | O => None
  | S fuel' =>
      let f := equations params in
      let J := jacobian params in
      let '(f0, f1, f2) := f in
      let residual := sqrt (f0 * f0 + f1 * f1 + f2 * f2) in
      if residual <? tolerance then Some params
      else
        try_catch (solveLinearSystem J [- f0; - f1; - f2])
          (fun delta =>
             iterate fuel' tolerance (lineSearch params delta residual))
          None
  end.

(** [newtonRaphson(initialGuess, maxIter = 100, tolerance = 1e-10)] *)
Definition newtonRaphson (initialGuess : Vec3) : option Vec3 :=
  iterate 100 1e-10 initialGuess.

(** *** Initial guesses *)

Definition midX : float := (x1 + x2) / 2.
Definition midY : float := (y1 + y2) / 2.
Definition dx : float := x2 - x1.

Definition estimatedA : float :=
  let estimatedA := s / (2 * sinh (dx / (2 * s / PI))) in
  if negb (isFinite estimatedA) || (estimatedA <=? 0) then s / 4
  else estimatedA.

(** The array [initialGuesses] after the first [push] and the [for ... of]
    loop over the factors, which pushes three guesses per factor. *)
Definition initialGuesses : list Vec3 :=
  let initialGuesses := [] in
  let initialGuesses :=
    initialGuesses ++ [(estimatedA, midX, midY - estimatedA)] in
  fold_left
    (fun initialGuesses aFactor =>
       let a := estimatedA * aFactor in
       let initialGuesses := initialGuesses ++ [(a, midX, midY - a)] in
       let initialGuesses :=
         initialGuesses ++ [(a, midX + dx * 0.1, midY - a)] in
       initialGuesses ++ [(a, midX - dx * 0.1, midY - a)])
    [0.5; 1.5; 2.0; 3.0] initialGuesses.

(** *** The driver *)

(** The loop [for (const guess of initialGuesses)], with its [return]
    inside and the [return null] after it. *)
Fixpoint tryGuesses (guesses : list Vec3) : option Params :=
  match guesses with
  | [] => None
  | guess :: rest =>
      match newtonRaphson guess with
      | Some ((r0, r1, r2) as result) =>
          if r0 >? 0 then
            let '(eq1, eq2, eq3) := equations result in
            let error := sqrt (eq1 * eq1 + eq2 * eq2 + eq3 * eq3) in
            if error <? 1e-6 then Some {| a := r0; b := r1; c := r2 |}
            else tryGuesses rest
          else tryGuesses rest
      | None => tryGuesses rest
      end
  end.

End Solver.

Definition solveCatenary {M : MathObject} (points : Point * Point) (s : float)
  : result Error (option Params) :=
  let '((x1, y1), (x2, y2)) := points in
  if s <=? 0 then Throw ArcLengthNotPositive
  else if x1 =? x2 then Throw SameXCoordinates
  else
    let minArcLength := minArcLength x1 y1 x2 y2 in
    if s <? minArcLength then Throw (ArcLengthTooShort s minArcLength)
    else Return (tryGuesses x1 y1 x2 y2 s (initialGuesses x1 y1 x2 y2 s)).

End Cat.

(** ** The application file: the fixed-point solver and its helpers *)

Module App.

Section Solver.

Context {M : MathObject}.

Definition TOO_SMALL : float := 1e-6.

(** The loop
    [for (let count = 0; count < 100 && Math.abs(x - prevx) > TOO_SMALL; count++)]:
    [budget] is [100 - count]; it yields the value of [x] after the loop. *)
Fixpoint iterateX (budget : nat) (m x prevx : float) : float :=
  match budget with
  | O => x
  | S budget' =>
      if abs (x - prevx) >? TOO_SMALL then
        let prevx := x in
        let x := x - (sinh x - m * x) / (cosh x - m) in
        iterateX budget' m x prevx
      else x
  end.

(** The function has no [throw] and no validation: every call returns its
    object.  The error type is the one of [Cat], the only errors the
    repository throws. *)
Definition solveCatenary (points : Point * Point) (s : float)
  : result Cat.Error Params :=
  let '((x1, y1), (x2, y2)) := points in
  let h := x2 - x1 in
  let v := y2 - y1 in
  let m := sqrt (s * s - v * v) / h in
  let x := acosh m + 1 in
  let prevx := -1 in
  let x := iterateX 100 m x prevx in
  let a := h / (2 * x) in
  let offsetX := x1 - ((a * log ((s + v) / (s - v)) - h) * 0.5) in
  let offsetY := y1 - (a * cosh ((x1 - offsetX) / a)) in
  Return {| a := a; b := offsetX; c := offsetY |}.

(** [sorted.sort((a, b) => a[0] - b[0])] on the copy of a two-element array.
    [Array.prototype.sort] is stable and orders by the sign of the comparator:
    the two elements are exchanged exactly when the comparator is positive on
    them in their order.  (Where the difference is NaN the standard leaves the
    order to the implementation; the order is kept then, as an insertion step
    does.) *)
Definition sortX (p : Point * Point) : Point * Point :=
  let '(p0, p1) := p in
  if fst p0 - fst p1 >? 0 then (p1, p0) else (p0, p1).

Definition cartDist (points : Point * Point) : float :=
  let '(p0, p1) := points in
  sqrt (pow (fst p0 - fst p1) 2 + pow (snd p0 - snd p1) 2).

Definition evaluateCatenary (params : Params) (x : float) : float :=
  let '{| a := a; b := b; c := c |} := params in
  a * cosh ((x - b) / a) + c.

(** The solving step of the effect of [App]:
    [const orderedPoints = sortX(points); ... solveCatenary(orderedPoints, length)].
    The rest of the effect samples the curve for display. *)
Definition solveOrdered (points : Point * Point) (length : float)
  : result Cat.Error Params :=
  let orderedPoints := sortX points in
  solveCatenary orderedPoints length.

(** The effect of [App] on a change of the points, as the value it leaves in
    the state [length]:
    [if (length < minLength) setLength(minLength);
     else if (length > maxLength) setLength(maxLength);]. *)
Definition clampLength (length minLength maxLength : float) : float :=
  if length <? minLength then minLength
  else if length >? maxLength then maxLength
  else length.

End Solver.

End App.

(** ** The formulas of the two files over any numbers

    The arithmetic of [equations], [jacobian] and [solveLinearSystem] of
    [src/cat.tsx], and of the fixed-point solver of the application file, is
    written once more over any type of numbers with the operations used.  At
    the floats these definitions are the code as embedded above (shown
    below by the lemmas named [..._formula]); at the real numbers they are the
    code in exact arithmetic. *)

Module Formulas.

(** The operations on numbers that the formulas use, with the constants
    [0], [1], [2] and [0.5], and the value [undefined] that reading an array
    out of range gives. *)

Record Arithmetic (T : Type) : Type := {
  add : T -> T -> T;
  sub : T -> T -> T;
  mul : T -> T -> T;
  div : T -> T -> T;
  zero : T;
  one : T;
  two : T;
  half : T;
  abs : T -> T;
  gtb : T -> T -> bool;
  sqrt : T -> T;
  cosh : T -> T;
  sinh : T -> T;
  log : T -> T;
  undefined : T
}.
Arguments add {T}.
Arguments sub {T}.
Arguments mul {T}.
Arguments div {T}.
Arguments zero {T}.
Arguments one {T}.
Arguments two {T}.
Arguments half {T}.
Arguments abs {T}.
Arguments gtb {T}.
Arguments sqrt {T}.
Arguments cosh {T}.
Arguments sinh {T}.
Arguments log {T}.
Arguments undefined {T}.

Section Over.

Context {T : Type} (N : Arithmetic T).

(** [equations] and [jacobian], in the branch [a > 0]. *)
Section Residuals.

Variables x1 y1 x2 y2 s : T.

Definition equations (a b c : T) : T * T * T :=
  let arg1 := div N (sub N x1 b) a in
  let arg2 := div N (sub N x2 b) a in
  let cosh1 := cosh N arg1 in
  let cosh2 := cosh N arg2 in
  let sinh1 := sinh N arg1 in
  let sinh2 := sinh N arg2 in
  let eq1 := sub N (add N (mul N a cosh1) c) y1 in
  let eq2 := sub N (add N (mul N a cosh2) c) y2 in
  let eq3 := sub N (mul N a (sub N sinh2 sinh1)) s in
  (eq1, eq2, eq3).

Definition jacobian (a b : T) : list (list T) :=
  let arg1 := div N (sub N x1 b) a in
  let arg2 := div N (sub N x2 b) a in
  let cosh1 := cosh N arg1 in
  let cosh2 := cosh N arg2 in
  let sinh1 := sinh N arg1 in
  let sinh2 := sinh N arg2 in
  let J11 := sub N cosh1 (mul N arg1 sinh1) in
  let J12 := sinh1 in
  let J13 := one N in
  let J21 := sub N cosh2 (mul N arg2 sinh2) in
  let J22 := sinh2 in
  let J23 := one N in
  let J31 := sub N (sub N sinh2 sinh1)
               (sub N (mul N arg2 cosh2) (mul N arg1 cosh1)) in
  let J32 := sub N cosh1 cosh2 in
  let J33 := zero N in
  [[J11; J12; J13]; [J21; J22; J23]; [J31; J32; J33]].

End Residuals.

(** The fixed-point solver of the application file: the ratio [m], one turn
    of its loop, and the object it builds from the value of [x] after the
    loop. *)
Definition ratio (x1 y1 x2 y2 s : T) : T :=
  let h := sub N x2 x1 in
  let v := sub N y2 y1 in
  div N (sqrt N (sub N (mul N s s) (mul N v v))) h.

Definition turn (m x : T) : T :=
  sub N x (div N (sub N (sinh N x) (mul N m x)) (sub N (cosh N x) m)).

Definition offsets (x1 y1 x2 y2 s x : T) : T * T * T :=
  let h := sub N x2 x1 in
  let v := sub N y2 y1 in
  let a := div N h (mul N (two N) x) in
  let offsetX :=
    sub N x1
      (mul N (sub N (mul N a (log N (div N (add N s v) (sub N s v)))) h)
         (half N)) in
  let offsetY := sub N y1 (mul N a (cosh N (div N (sub N x1 offsetX) a))) in
  (a, offsetX, offsetY).

(** [solveLinearSystem] and its loops. *)
Definition get (l : list T) (i : nat) : T := nth i l (undefined N).
Definition row (A : list (list T)) (i : nat) : list T := nth i A [].

Definition findPivot (augmented : list (list T)) (i : nat) : nat :=
  fold_left
    (fun maxRow k =>
       if gtb N (abs N (get (row augmented k) i))
                (abs N (get (row augmented maxRow) i))
       then k else maxRow)
    (Cat.range (i + 1) Cat.n) i.

Definition swapRows (augmented : list (list T)) (i maxRow : nat)
  : list (list T) :=
  let ri := row augmented i in
  let rm := row augmented maxRow in
  set (set augmented i rm) maxRow ri.

Definition eliminateRow (augmented : list (list T)) (i k : nat)
  : list (list T) :=
  let factor := div N (get (row augmented k) i) (get (row augmented i) i) in
  fold_left
    (fun aug j =>
       set aug k
         (set (row aug k) j
            (sub N (get (row aug k) j) (mul N factor (get (row aug i) j)))))
    (Cat.range i (Cat.n + 1)) augmented.

Definition forwardElimination (augmented : list (list T))
  : list (list T) :=
  fold_left
    (fun aug i =>
       let maxRow := findPivot aug i in
       let aug := swapRows aug i maxRow in
       fold_left (fun aug k => eliminateRow aug i k)
         (Cat.range (i + 1) Cat.n) aug)
    (Cat.range 0 Cat.n) augmented.

Definition backSubstitution (augmented : list (list T)) : list T :=
  fold_left
    (fun solution i =>
       let solution := set solution i (get (row augmented i) Cat.n) in
       let solution :=
         fold_left
           (fun sol j =>
              set sol i
                (sub N (get sol i) (mul N (get (row augmented i) j) (get sol j))))
           (Cat.range (i + 1) Cat.n) solution in
       set solution i (div N (get solution i) (get (row augmented i) i)))
    (rev (Cat.range 0 Cat.n)) (repeat (zero N) Cat.n).

Definition augment (A : list (list T)) (b : list T) : list (list T) :=
  map (fun '(row, i) => row ++ [get b i]) (combine A (seq 0 (length A))).

Definition solveLinearSystem (A : list (list T)) (b : list T) : list T :=
  backSubstitution (forwardElimination (augment A b)).

End Over.

End Formulas.

(** The numbers of the program. *)
Definition floatArithmetic {M : MathObject} : Formulas.Arithmetic float :=
  {| Formulas.add := PrimFloat.add; Formulas.sub := PrimFloat.sub;
     Formulas.mul := PrimFloat.mul; Formulas.div := PrimFloat.div;
     Formulas.zero := 0; Formulas.one := 1; Formulas.two := 2;
     Formulas.half := 0.5;
     Formulas.abs := PrimFloat.abs; Formulas.gtb := JS.gtb;
     Formulas.sqrt := PrimFloat.sqrt;
     Formulas.cosh := cosh; Formulas.sinh := sinh; Formulas.log := log;
     Formulas.undefined := nan |}.

(** *** Exact arithmetic *)

Module Exact.

Import Reals.
Local Open Scope R_scope.

(** The real numbers, with [x > y] decided classically; [0.5] is the real
    number one half. *)
Definition arithmetic : Formulas.Arithmetic R :=
  {| Formulas.add := Rplus; Formulas.sub := Rminus; Formulas.mul := Rmult;
     Formulas.div := Rdiv; Formulas.zero := 0; Formulas.one := 1;
     Formulas.two := 2; Formulas.half := / 2;
     Formulas.abs := Rabs;
     Formulas.gtb := fun x y => if Rlt_dec y x then true else false;
     Formulas.sqrt := sqrt; Formulas.cosh := cosh; Formulas.sinh := sinh;
     Formulas.log := ln; Formulas.undefined := 0 |}.

(** The residual [i] of [equations] at [(a, b, c)], and the entry [i][j] of
    [jacobian]. *)
Definition residual (x1 y1 x2 y2 s : R) (i : nat) (a b c : R) : R :=
  let '(f0, f1, f2) := Formulas.equations arithmetic x1 y1 x2 y2 s a b c in
  match i with O => f0 | S O => f1 | _ => f2 end.

Definition entry (A : list (list R)) (i j : nat) : R :=
  Formulas.get arithmetic (Formulas.row A i) j.

Definition J (x1 x2 a b : R) (i j : nat) : R :=
  entry (Formulas.jacobian arithmetic x1 x2 a b) i j.

(** [x] satisfies the equation that a row [[r0, r1, r2, r3]] of an augmented
    matrix stands for, and those of all three rows. *)
Definition solvesRow (x r : list R) : Prop :=
  Formulas.get arithmetic r 0 * Formulas.get arithmetic x 0
  + Formulas.get arithmetic r 1 * Formulas.get arithmetic x 1
  + Formulas.get arithmetic r 2 * Formulas.get arithmetic x 2
  = Formulas.get arithmetic r 3.

Definition solves (x : list R) (augmented : list (list R)) : Prop :=
  forall i, (i < 3)%nat -> solvesRow x (Formulas.row augmented i).

(** The determinant of a 3 x 3 matrix. *)
Definition det3 (A : list (list R)) : R :=
  entry A 0 0 * (entry A 1 1 * entry A 2 2 - entry A 1 2 * entry A 2 1)
  - entry A 0 1 * (entry A 1 0 * entry A 2 2 - entry A 1 2 * entry A 2 0)
  + entry A 0 2 * (entry A 1 0 * entry A 2 1 - entry A 1 1 * entry A 2 0).

End Exact.

(** ** A reference [Math] object

    One implementation of the interface, by argument reduction and Taylor
    sums, accurate to a few units in the last place.  It shows that the
    interface is inhabited and lets the solvers run on concrete inputs. *)

Module Reference.

(** The integer value of a float that holds an integer. *)
Definition toZ (x : float) : Z :=
  match Prim2SF x with
  | S754_finite sg m e => cond_Zopp sg (Z.shiftl (Zpos m) e)
  | _ => 0%Z
  end.

Definition ofZ (z : Z) : float :=
  if (z <? 0)%Z then - of_uint63 (Uint63.of_Z (- z))
  else of_uint63 (Uint63.of_Z z).

Definition ln2_hi : float := 0x1.62e42fee00000p-1.
Definition ln2_lo : float := 0x1.a39ef35793c76p-33.
Definition inv_ln2 : float := 0x1.71547652b82fep+0.
Definition ln2 : float := 0x1.62e42fefa39efp-1.
Definition sqrt_half : float := 0x1.6a09e667f3bcdp-1.

Fixpoint horner (cs : list float) (r : float) : float :=
  match cs with
  | [] => 0
  | c :: cs' => c + r * horner cs' r
  end.

(** [1/i!, 1/(i+1)!, ...] *)
Fixpoint exp_series (k : nat) (i acc : float) : list float :=
  match k with
  | O => []
  | S k' => acc :: exp_series k' (i + 1) (acc / (i + 1))
  end.

(** [1/(i+1)!, 1/(i+3)!, ...] *)
Fixpoint sinh_series (k : nat) (i acc : float) : list float :=
  match k with
  | O => []
  | S k' => acc :: sinh_series k' (i + 2) (acc / ((i + 2) * (i + 3)))
  end.

(** [1/i, 1/(i+2), ...] *)
Fixpoint atanh_series (k : nat) (i : float) : list float :=
  match k with
  | O => []
  | S k' => (1 / i) :: atanh_series k' (i + 2)
  end.

Definition exp (x : float) : float :=
  if is_nan x then nan
  else if x <? -746 then 0
  else if 710 <? x then infinity
  else
    let k := (x * inv_ln2 + 0x1.8p52) - 0x1.8p52 in
    let r := (x - k * ln2_hi) - k * ln2_lo in
    Z.ldexp (horner (exp_series 15 0 1) r) (toZ k).

Definition sinh (x : float) : float :=
  if abs x <? 0.5 then x * horner (sinh_series 9 0 1) (x * x)
  else (exp x - exp (- x)) / 2.

Definition cosh (x : float) : float := (exp x + exp (- x)) / 2.

Definition log (x : float) : float :=
  if is_nan x then nan
  else if x <? 0 then nan
  else if x =? 0 then neg_infinity
  else if x =? infinity then infinity
  else
    let '(m, e) := Z.frexp x in
    let '(m, e) := if m <? sqrt_half then (2 * m, (e - 1)%Z) else (m, e) in
    let z := (m - 1) / (m + 1) in
    ofZ e * ln2_hi
    + (2 * z * horner (atanh_series 14 1) (z * z) + ofZ e * ln2_lo).

Definition acosh (x : float) : float :=
  if is_nan x then nan
  else if x <? 1 then nan
  else if x =? infinity then infinity
  else if 0x1p500 <? x then log x + ln2
  else
    let t := x - 1 in
    let u := t + sqrt (2 * t + t * t) in
    let w := 1 + u in
    if w =? 1 then u else log w * (u / (w - 1)).

(** Only the exponent 2 occurs in the repository; there the square is the
    IEEE product. *)
Definition pow (x y : float) : float :=
  if y =? 2 then x * x else exp (y * log x).

(** The object, with the proofs of its special values. *)
Definition math : MathObject.
Proof.
  refine (Build_MathObject cosh sinh acosh log pow
            eq_refl eq_refl eq_refl _ eq_refl).
  intros x H. unfold acosh. rewrite H. now destruct (is_nan x).
Defined.

End Reference.

(** * The vocabulary of the claims

    The properties of the two solvers are stated with the definitions of this
    part.  Those named [claimed...], [each...], [last...], [order...],
    [infeasible...] and [solversAgree] word a claim as it is written; the
    others describe what the code computes. *)

(** ** Outcomes of the Newton-Raphson solver *)

(** The Euclidean norm of a residual vector, as the driver computes it. *)
Definition norm3 (f : Cat.Vec3) : float :=
  let '(f0, f1, f2) := f in sqrt (f0 * f0 + f1 * f1 + f2 * f2).

(** The right-hand side [[-f[0], -f[1], -f[2]]] of the Newton step. *)
Definition negated (f : Cat.Vec3) : list float :=
  let '(f0, f1, f2) := f in [- f0; - f1; - f2].

Section CatVocabulary.

Context {M : MathObject}.
Variables x1 y1 x2 y2 s : float.

(** The re-verification of a converged result in the driver: the residual
    norm is below 1e-6. *)
Definition verifies (r : Cat.Vec3) : bool :=
  norm3 (Cat.equations x1 y1 x2 y2 s r) <? 1e-6.

(** The object built from a converged result. *)
Definition paramsOf (r : Cat.Vec3) : Params :=
  let '(r0, r1, r2) := r in {| a := r0; b := r1; c := r2 |}.

(** A guess succeeds when its iteration converges and the result verifies. *)
Definition succeeds (guess r : Cat.Vec3) : Prop :=
  Cat.newtonRaphson x1 y1 x2 y2 s guess = Some r /\ verifies r = true.

(** An outcome is the parameters of the first initial guess, in the order of
    generation, that succeeds, or [null] when no guess succeeds. *)
Definition firstVerified (outcome : result Cat.Error (option Params)) : Prop :=
  let guesses := Cat.initialGuesses x1 y1 x2 y2 s in
  (exists i guess r,
      nth_error guesses i = Some guess /\ succeeds guess r /\
      (forall j guess' r', (j < i)%nat -> nth_error guesses j = Some guess' ->
                           ~ succeeds guess' r') /\
      outcome = Return (Some (paramsOf r)))
  \/ ((forall guess r, In guess guesses -> ~ succeeds guess r) /\
      outcome = Return None).

(** The validation as C2 words it: each error is thrown exactly when its own
    condition holds. *)
Definition eachErrorIffItsCondition : Prop :=
  let outcome := Cat.solveCatenary ((x1, y1), (x2, y2)) s in
  let minArcLength := Cat.minArcLength x1 y1 x2 y2 in
  (outcome = Throw Cat.ArcLengthNotPositive <-> (s <=? 0) = true)
  /\ (outcome = Throw Cat.SameXCoordinates <-> (x1 =? x2) = true)
  /\ (outcome = Throw (Cat.ArcLengthTooShort s minArcLength)
      <-> (s <? minArcLength) = true).

(** An input that the validation accepts, with the points in ascending order
    of x. *)
Definition validInput : bool :=
  negb (s <=? 0) && (x1 <? x2) && negb (s <? Cat.minArcLength x1 y1 x2 y2).

(** The result of the first guess, in the order of the list, on which the
    iteration converges. *)
Fixpoint firstConverged (guesses : list Cat.Vec3) : option Cat.Vec3 :=
  match guesses with
  | [] => None
  | guess :: rest =>
      match Cat.newtonRaphson x1 y1 x2 y2 s guess with
      | Some r => Some r
      | None => firstConverged rest
      end
  end.

End CatVocabulary.

(** ** The linear solver *)

(** The shape of every matrix the driver passes to the linear solver. *)
Definition is3x3 (A : list (list float)) : Prop :=
  length A = 3%nat /\ Forall (fun row => length row = 3%nat) A.


(** ** The line search *)

Section LineSearchVocabulary.

Context {M : MathObject}.
Variables x1 y1 x2 y2 s : float.
Variables (params : Cat.Vec3) (delta : list float) (residual : float).

(** The step size of attempt [k]: 1.0 halved [k] times. *)
Definition stepSizeAt (k : nat) : float := Nat.iter k (fun st => st * 0.5) 1.0.

(** The update computed at attempt [k]. *)
Definition candidate (k : nat) : Cat.Vec3 :=
  let '(p0, p1, p2) := params in
  (p0 + stepSizeAt k * get delta 0,
   p1 + stepSizeAt k * get delta 1,
   p2 + stepSizeAt k * get delta 2).

(** The update of attempt [k] keeps [a > 0]. *)
Definition feasible (k : nat) : bool :=
  let '(np0, _, _) := candidate k in np0 >? 0.

(** The residual norm of the update of attempt [k]. *)
Definition newNorm (k : nat) : float :=
  let '(r0, r1, r2) := Cat.equations x1 y1 x2 y2 s (candidate k) in
  sqrt (pow r0 2 + pow r1 2 + pow r2 2).

(** Attempt [k] keeps [a > 0] and strictly reduces the residual norm. *)
Definition improves (k : nat) : bool := feasible k && (newNorm k <? residual).

(** Attempt [k] ends the search: it keeps [a > 0], and it reduces the norm or
    is the tenth attempt. *)
Definition accepts (k : nat) : bool :=
  feasible k && ((newNorm k <? residual) || Nat.eqb k 9).

(** The exhausted budget as C4 words it: when no attempt improves, the tenth
    update is taken whatever it is. *)
Definition lastUpdateAccepted : Prop :=
  (forall j, (j < 10)%nat -> improves j = false) ->
  Cat.lineSearch x1 y1 x2 y2 s params delta residual = candidate 9.

End LineSearchVocabulary.

(** ** The initial guesses *)

(** The three guesses of one scaling factor: [b] at the midpoint, then shifted
    by plus and by minus a tenth of the x-span. *)
Definition guessesOfFactor (estimatedA midX midY dx aFactor : float)
  : list Cat.Vec3 :=
  let a := estimatedA * aFactor in
  [(a, midX, midY - a); (a, midX + dx * 0.1, midY - a);
   (a, midX - dx * 0.1, midY - a)].

(** The list as C8 words it: the symmetric guess, then the variants of the
    five factors 0.5, 1.0, 1.5, 2.0 and 3.0. *)
Definition claimedInitialGuesses {M : MathObject} (x1 y1 x2 y2 s : float)
  : list Cat.Vec3 :=
  let estimatedA := Cat.estimatedA x1 x2 s in
  let midX := Cat.midX x1 x2 in
  let midY := Cat.midY y1 y2 in
  (estimatedA, midX, midY - estimatedA)
  :: flat_map (guessesOfFactor estimatedA midX midY (Cat.dx x1 x2))
       [0.5; 1.0; 1.5; 2.0; 3.0].

(** ** Comparing outcomes *)

(** Two parameter objects agree within [tol] in each field. *)
Definition closeParams (tol : float) (p q : Params) : bool :=
  (abs (a p - a q) <=? tol) && (abs (b p - b q) <=? tol)
  && (abs (c p - c q) <=? tol).

(** Two outcomes of the Newton-Raphson solver agree within [tol]. *)
Definition sameOutcome (tol : float)
    (o1 o2 : result Cat.Error (option Params)) : Prop :=
  match o1, o2 with
  | Return (Some p), Return (Some q) => closeParams tol p q = true
  | Return None, Return None => True
  | Throw _, Throw _ => True
  | _, _ => False
  end.

(** The order of the points as C5 words it, for the solver of [src/cat.tsx]:
    it does not matter. *)
Definition orderInvariant {M : MathObject} (tol : float) (P Q : Point)
    (s : float) : Prop :=
  sameOutcome tol (Cat.solveCatenary (P, Q) s) (Cat.solveCatenary (Q, P) s).

(** The two solvers as C9 words them: both yield parameters, the same within
    [tol]. *)
Definition solversAgree {M : MathObject} (tol : float) (x1 y1 x2 y2 s : float)
  : Prop :=
  exists p q,
    Cat.solveCatenary ((x1, y1), (x2, y2)) s = Return (Some p)
    /\ App.solveCatenary ((x1, y1), (x2, y2)) s = Return q
    /\ closeParams tol p q = true.

(** On a valid input the Newton-Raphson solver returns [null], although the
    object of the fixed-point solver has [a > 0] and passes the residual test
    of the driver of [src/cat.tsx]: a solution that the driver would accept
    exists, and is missed. *)
Definition newtonMisses {M : MathObject} (x1 y1 x2 y2 s : float) : Prop :=
  validInput x1 y1 x2 y2 s = true
  /\ Cat.solveCatenary ((x1, y1), (x2, y2)) s = Return None
  /\ exists q,
       App.solveCatenary ((x1, y1), (x2, y2)) s = Return q
       /\ (a q >? 0) = true
       /\ verifies x1 y1 x2 y2 s (a q, b q, c q) = true.

(** ** Objects of the fixed-point solver *)

(** The three fields are NaN. *)
Definition allNaN (p : Params) : Prop := a p = nan /\ b p = nan /\ c p = nan.

(** Some field is NaN or infinite. *)
Definition nonFinite (p : Params) : bool :=
  negb (isFinite (a p)) || negb (isFinite (b p)) || negb (isFinite (c p)).

(** The infeasible inputs that C10 lists: equal x-coordinates, an arc length
    below the distance of the points, or [s * s <= (y2 - y1) * (y2 - y1)]. *)
Definition infeasible {M : MathObject} (x1 y1 x2 y2 s : float) : bool :=
  (x1 =? x2) || (s <? App.cartDist ((x1, y1), (x2, y2)))
  || (s * s <=? (y2 - y1) * (y2 - y1)).

(** The result on an infeasible input as C10 words it: the object has a field
    that is NaN or infinite. *)
Definition infeasibleGivesNonFinite {M : MathObject} (x1 y1 x2 y2 s : float)
  : Prop :=
  infeasible x1 y1 x2 y2 s = true ->
  exists p, App.solveCatenary ((x1, y1), (x2, y2)) s = Return p
            /\ nonFinite p = true.

(** * Verification *)

(** ** IEEE facts

    The primitive operations are specified by their images in [SpecFloat]. *)

Module IEEE.

(** The integer that a finite float with mantissa [m] and exponent [e] is,
    in units of [2 ^ ez]. *)
Definition aligned (sg : bool) (m : positive) (e ez : Z) : Z :=
  cond_Zopp sg (Zpos (fst (shl_align m e ez))).

(** Strictly positive; and negative, a zero, or NaN. *)
Definition positive_sf (r : spec_float) : Prop :=
  SFltb (S754_zero false) r = true.

Definition nonpositive_sf (r : spec_float) : Prop :=
  SFleb r (S754_zero false) = true \/ r = S754_nan.

(** Not negative: a zero of either sign, positive, plus infinity, or NaN. *)
Definition nonnegative_sf (r : spec_float) : Prop :=
  match r with
  | S754_infinity sg | S754_finite sg _ _ => sg = false
  | _ => True
  end.

(** An infinity or NaN. *)
Definition nonfinite_sf (r : spec_float) : Prop :=
  match r with
  | S754_nan | S754_infinity _ => True
  | _ => False
  end.

(** Plus infinity or NaN. *)
Definition top_sf (r : spec_float) : Prop :=
  r = S754_nan \/ r = S754_infinity false.

(** Being a zero of either sign, or NaN. *)
Definition zero_or_nan (z : float) : Prop := (z =? 0) = true \/ z = nan.

(** A bound above every finite float, in units of [2 ^ -1074]. *)
Definition pow2045 : Z := (2 ^ 2045)%Z.
Definition big : Z := (2 ^ 53 * pow2045)%Z.

(** The place of a number that is not NaN on the integer line, in units of
    [2 ^ -1074]; the infinities take the two ends. *)
Definition key (f : spec_float) : Z :=
  match f with
  | S754_zero _ => 0%Z
  | S754_infinity false => big
  | S754_infinity true => (- big)%Z
  | S754_nan => 0%Z
  | S754_finite sg m e => cond_Zopp sg (Zpos m * 2 ^ (e + 1074))%Z
  end.

Definition fkey (x : float) : Z := key (Prim2SF x).

(** *** The specification level: mantissas, exponents and rounding *)


Local Open Scope Z_scope.

Lemma digits2_size (p : positive) : digits2_pos p = Pos.size p.
Proof. induction p; cbn; congruence. Qed.

Lemma digits2_bounds (p : positive) :
  2 ^ (Zpos (digits2_pos p) - 1) <= Zpos p < 2 ^ Zpos (digits2_pos p).
Proof.
  rewrite digits2_size. split.
  - pose proof (Pos.size_le p) as H.
    apply Pos2Z.pos_le_pos in H. rewrite Pos2Z.inj_pow in H.
    replace (Zpos (Pos.size p)) with (Z.succ (Zpos (Pos.size p) - 1)) in H by lia.
    rewrite Z.pow_succ_r in H by lia.
    change (Zpos p~0) with (2 * Zpos p) in H. lia.
  - pose proof (Pos.size_gt p) as H.
    apply Pos2Z.pos_lt_pos in H. now rewrite Pos2Z.inj_pow in H.
Qed.

Lemma iter_xO (m d : positive) : Zpos (Pos.iter xO m d) = Zpos m * 2 ^ Zpos d.
Proof.
  induction d as [|d IH] using Pos.peano_ind.
  - cbn. lia.
  - rewrite Pos.iter_succ, Pos2Z.inj_succ, Z.pow_succ_r by lia.
    change (Zpos (Pos.iter xO m d)~0) with (2 * Zpos (Pos.iter xO m d)).
    rewrite IH. ring.
Qed.

Lemma shl_align_value (m : positive) (e ez : Z) :
  ez <= e -> Zpos (fst (shl_align m e ez)) = Zpos m * 2 ^ (e - ez).
Proof.
  intros H. unfold shl_align.
  destruct (ez - e) as [|d|d] eqn:Hd; cbn [fst].
  - replace (e - ez) with 0 by lia. cbn. lia.
  - lia.
  - rewrite iter_xO. f_equal. f_equal. lia.
Qed.

Lemma canonical_facts (sg : bool) (m : positive) (e : Z) :
  valid_binary (S754_finite sg m e) = true ->
  -1074 <= e /\ Zpos (digits2_pos m) <= 53 /\
  (-1074 < e -> Zpos (digits2_pos m) = 53).
Proof.
  cbn [SpecFloat.valid_binary].
  unfold bounded, canonical_mantissa, fexp, SpecFloat.emin.
  intros H. apply andb_prop in H as [H _]. apply Z.eqb_eq in H.
  change prec with 53 in H. change emax with 1024 in H. lia.
Qed.

Lemma aligned_value (sg : bool) (m : positive) (e ez : Z) :
  ez <= e -> aligned sg m e ez = cond_Zopp sg (Zpos m * 2 ^ (e - ez)).
Proof. intros H. unfold aligned. now rewrite shl_align_value. Qed.

Lemma mantissa_order (m1 m2 : positive) (e1 e2 : Z) :
  valid_binary (S754_finite false m1 e1) = true ->
  valid_binary (S754_finite false m2 e2) = true ->
  e1 < e2 -> Zpos m1 * 2 ^ 0 < Zpos m2 * 2 ^ (e2 - e1).
Proof.
  intros V1 V2 He.
  apply canonical_facts in V1 as (Hmin1 & Hd1 & _).
  apply canonical_facts in V2 as (_ & _ & Hd2).
  specialize (Hd2 ltac:(lia)).
  pose proof (digits2_bounds m1) as [_ B1].
  pose proof (digits2_bounds m2) as [B2 _].
  rewrite Hd2 in B2.
  assert (Zpos m1 < 2 ^ 53).
  { eapply Z.lt_le_trans; [exact B1|]. apply Z.pow_le_mono_r; lia. }
  assert (2 ^ 1 <= 2 ^ (e2 - e1)) by (apply Z.pow_le_mono_r; lia).
  change (2 ^ 1) with 2 in *. change (2 ^ (53 - 1)) with 4503599627370496 in B2.
  change (2 ^ 53) with 9007199254740992 in *. change (2 ^ 0) with 1. nia.
Qed.

Lemma compare_aligned (s1 s2 : bool) (m1 m2 : positive) (e1 e2 : Z) :
  valid_binary (S754_finite s1 m1 e1) = true ->
  valid_binary (S754_finite s2 m2 e2) = true ->
  SFcompare (S754_finite s1 m1 e1) (S754_finite s2 m2 e2) =
    Some (aligned s1 m1 e1 (Z.min e1 e2) ?= aligned s2 m2 e2 (Z.min e1 e2)).
Proof.
  intros V1 V2.
  rewrite !aligned_value by lia.
  assert (P1 : 0 < Zpos m1 * 2 ^ (e1 - Z.min e1 e2)).
  { apply Z.mul_pos_pos; [lia|]. apply Z.pow_pos_nonneg; lia. }
  assert (P2 : 0 < Zpos m2 * 2 ^ (e2 - Z.min e1 e2)).
  { apply Z.mul_pos_pos; [lia|]. apply Z.pow_pos_nonneg; lia. }
  assert (V1' : valid_binary (S754_finite false m1 e1) = true) by exact V1.
  assert (V2' : valid_binary (S754_finite false m2 e2) = true) by exact V2.
  assert (Hsame :
    (Zpos m1 * 2 ^ (e1 - Z.min e1 e2) ?= Zpos m2 * 2 ^ (e2 - Z.min e1 e2)) =
    match e1 ?= e2 with
    | Lt => Lt
    | Gt => Gt
    | Eq => Pos.compare_cont Eq m1 m2
    end).
  { destruct (Z.compare_spec e1 e2) as [->|Hlt|Hgt].
    - rewrite Z.min_id, Z.sub_diag. change (2 ^ 0) with 1. rewrite !Z.mul_1_r.
      reflexivity.
    - rewrite Z.min_l by lia. rewrite Z.sub_diag. apply Z.compare_lt_iff.
      now apply mantissa_order.
    - rewrite Z.min_r by lia. rewrite Z.sub_diag. apply Z.compare_gt_iff.
      now apply mantissa_order. }
  set (A := Zpos m1 * 2 ^ (e1 - Z.min e1 e2)) in *.
  set (B := Zpos m2 * 2 ^ (e2 - Z.min e1 e2)) in *.
  cbn [SFcompare cond_Zopp]. destruct s1, s2; cbn [cond_Zopp].
  - rewrite Z.compare_opp, (Z.compare_antisym A B), Hsame.
    destruct (e1 ?= e2); reflexivity.
  - f_equal. symmetry. apply Z.compare_lt_iff. lia.
  - f_equal. symmetry. apply Z.compare_gt_iff. lia.
  - now rewrite Hsame.
Qed.


(** *** Shifts and rounding keep a positive mantissa positive *)

Lemma shr_1_m (r : shr_record) :
  0 <= shr_m r -> shr_m (shr_1 r) = shr_m r / 2.
Proof.
  destruct r as [m r s]. cbn [shr_m]. intros H. rewrite <- Z.div2_div.
  destruct m as [|[p|p|]|p]; try reflexivity; lia.
Qed.

Lemma pow2_xO (q : positive) : 2 ^ Zpos q~0 = 2 ^ Zpos q * 2 ^ Zpos q.
Proof.
  replace (Zpos q~0) with (Zpos q + Zpos q) by lia.
  now rewrite Z.pow_add_r by lia.
Qed.

Lemma pow2_xI (q : positive) : 2 ^ Zpos q~1 = 2 * (2 ^ Zpos q * 2 ^ Zpos q).
Proof.
  replace (Zpos q~1) with (1 + (Zpos q + Zpos q)) by lia.
  now rewrite !Z.pow_add_r by lia.
Qed.

Lemma iter_shr_1_m (q : positive) (r : shr_record) :
  0 <= shr_m r -> shr_m (SpecFloat.iter_pos shr_1 q r) = shr_m r / 2 ^ Zpos q.
Proof.
  assert (Hpow : forall k : positive, 0 < 2 ^ Zpos k)
    by (intros k; apply Z.pow_pos_nonneg; lia).
  revert r. induction q as [q IH|q IH|]; intros r H; cbn [SpecFloat.iter_pos].
  - assert (H1 : 0 <= shr_m (shr_1 r))
      by (rewrite shr_1_m by lia; apply Z.div_pos; lia).
    assert (H2 : 0 <= shr_m (SpecFloat.iter_pos shr_1 q (shr_1 r)))
      by (rewrite IH by lia; apply Z.div_pos; [lia|apply Hpow]).
    rewrite IH, IH, shr_1_m by lia.
    pose proof (Hpow q) as Hq.
    rewrite !Z.div_div by nia.
    now rewrite pow2_xI.
  - assert (H2 : 0 <= shr_m (SpecFloat.iter_pos shr_1 q r))
      by (rewrite IH by lia; apply Z.div_pos; [lia|apply Hpow]).
    rewrite IH, IH by lia.
    pose proof (Hpow q) as Hq.
    rewrite Z.div_div by nia.
    now rewrite pow2_xO.
  - rewrite shr_1_m by lia. reflexivity.
Qed.

Lemma shr_record_of_loc_m (m : Z) (l : location) :
  shr_m (shr_record_of_loc m l) = m.
Proof. destruct l as [|[]]; reflexivity. Qed.

Lemma shr_fexp_pos (m e : Z) (l : location) :
  0 < m -> -1074 <= e ->
  0 < shr_m (fst (shr_fexp prec emax m e l))
  /\ -1074 <= snd (shr_fexp prec emax m e l).
Proof.
  intros Hm He. unfold shr_fexp, shr.
  destruct m as [|p|p]; try lia. cbn [Zdigits2].
  pose proof (digits2_bounds p) as [Blo _].
  set (d := Zpos (digits2_pos p)) in *.
  unfold fexp, SpecFloat.emin. change prec with 53. change emax with 1024.
  destruct (Z.max (d + e - 53) (3 - 1024 - 53) - e) as [|q|q] eqn:Hn;
    cbn [fst snd]; rewrite ?shr_record_of_loc_m; try (split; lia).
  rewrite iter_shr_1_m by (rewrite shr_record_of_loc_m; lia).
  rewrite shr_record_of_loc_m. split; [|lia].
  apply Z.div_str_pos. split; [apply Z.pow_pos_nonneg; lia|].
  eapply Z.le_trans; [|exact Blo]. apply Z.pow_le_mono_r; lia.
Qed.

Lemma round_nearest_even_ge (m : Z) (l : location) :
  m <= round_nearest_even m l.
Proof. destruct l as [|[]]; cbn; try destruct (Z.even m); lia. Qed.

Lemma binary_round_aux_pos (m e : Z) (l : location) :
  0 < m -> -1074 <= e -> positive_sf (binary_round_aux prec emax false m e l).
Proof.
  intros Hm He. unfold binary_round_aux.
  pose proof (shr_fexp_pos m e l Hm He) as [H1 H1e].
  destruct (shr_fexp prec emax m e l) as [mrs' e']. cbn [fst snd] in H1, H1e.
  pose proof (round_nearest_even_ge (shr_m mrs') (loc_of_shr_record mrs')) as Hr.
  set (m' := round_nearest_even (shr_m mrs') (loc_of_shr_record mrs')) in *.
  pose proof (shr_fexp_pos m' e' loc_Exact ltac:(lia) H1e) as [H2 _].
  destruct (shr_fexp prec emax m' e' loc_Exact) as [mrs'' e'']. cbn [fst] in H2.
  destruct (shr_m mrs'') as [|m''|m'']; try lia.
  now destruct (e'' <=? emax - prec).
Qed.

Lemma binary_round_aux_neg (m e : Z) (l : location) :
  nonpositive_sf (binary_round_aux prec emax true m e l).
Proof.
  unfold binary_round_aux, nonpositive_sf.
  destruct (shr_fexp prec emax m e l) as [mrs' e'].
  destruct (shr_fexp prec emax _ e' loc_Exact) as [mrs'' e''].
  destruct (shr_m mrs'') as [|m''|m'']; [left; reflexivity| |right; reflexivity].
  destruct (e'' <=? emax - prec); left; reflexivity.
Qed.

Lemma binary_normalize_pos (z e : Z) :
  0 < z -> -1074 <= e -> positive_sf (binary_normalize prec emax z e false).
Proof.
  intros Hz He. destruct z as [|m|m]; try lia.
  unfold binary_normalize, binary_round.
  destruct (shl_align m e _) as [mz ez] eqn:Hs.
  apply binary_round_aux_pos; [lia|].
  unfold shl_align in Hs.
  destruct (_ - e) eqn:Hd in Hs; injection Hs as <- <-; try lia.
  unfold fexp, SpecFloat.emin. change prec with 53. change emax with 1024. lia.
Qed.

Lemma binary_normalize_nonpos (z e : Z) :
  z <= 0 -> nonpositive_sf (binary_normalize prec emax z e false).
Proof.
  intros Hz. destruct z as [|m|m]; try lia.
  - left. reflexivity.
  - unfold binary_normalize, binary_round.
    destruct (shl_align m e _) as [mz ez]. apply binary_round_aux_neg.
Qed.


(** *** Subtraction and the order *)

Lemma SFsub_finite (s1 s2 : bool) (m1 m2 : positive) (e1 e2 : Z) :
  SF64sub (S754_finite s1 m1 e1) (S754_finite s2 m2 e2) =
  binary_normalize prec emax
    (aligned s1 m1 e1 (Z.min e1 e2) - aligned s2 m2 e2 (Z.min e1 e2))
    (Z.min e1 e2) false.
Proof. reflexivity. Qed.

Ltac simple_cases :=
  unfold positive_sf, nonpositive_sf, SFltb, SFleb, SFeqb, SF64sub, SFsub;
  cbn [SFcompare];
  repeat match goal with b : bool |- _ => destruct b end;
  intros; try discriminate; try reflexivity; auto.

(** A difference of two ordered numbers has the sign of their order. *)
Lemma SFsub_positive (fx fy : spec_float) :
  valid_binary fx = true -> valid_binary fy = true ->
  SFltb fx fy = true -> positive_sf (SF64sub fy fx).
Proof.
  intros Vx Vy.
  destruct fx as [sx|sx| |sx mx ex], fy as [sy|sy| |sy my ey].
  16: {
    unfold SFltb. rewrite compare_aligned by assumption. intros H.
    rewrite SFsub_finite, (Z.min_comm ey ex). apply binary_normalize_pos.
    - destruct (Z.compare_spec (aligned sx mx ex (Z.min ex ey))
                               (aligned sy my ey (Z.min ex ey)));
        try discriminate. lia.
    - apply canonical_facts in Vx as [? _]. apply canonical_facts in Vy as [? _].
      lia. }
  all: simple_cases.
Qed.

Lemma SFsub_nonpositive (fx fy : spec_float) :
  valid_binary fx = true -> valid_binary fy = true ->
  SFleb fx fy = true -> nonpositive_sf (SF64sub fx fy).
Proof.
  intros Vx Vy.
  destruct fx as [sx|sx| |sx mx ex], fy as [sy|sy| |sy my ey].
  16: {
    unfold SFleb. rewrite compare_aligned by assumption. intros H.
    rewrite SFsub_finite. apply binary_normalize_nonpos.
    destruct (Z.compare_spec (aligned sx mx ex (Z.min ex ey))
                             (aligned sy my ey (Z.min ex ey)));
      try discriminate; lia. }
  all: simple_cases.
Qed.

Lemma SFsub_equal (fx fy : spec_float) :
  valid_binary fx = true -> valid_binary fy = true ->
  SFeqb fx fy = true ->
  SFeqb (SF64sub fy fx) (S754_zero false) = true \/ SF64sub fy fx = S754_nan.
Proof.
  intros Vx Vy.
  destruct fx as [sx|sx| |sx mx ex], fy as [sy|sy| |sy my ey].
  16: {
    unfold SFeqb at 1. rewrite compare_aligned by assumption. intros H.
    rewrite SFsub_finite, (Z.min_comm ey ex).
    destruct (Z.compare_spec (aligned sx mx ex (Z.min ex ey))
                             (aligned sy my ey (Z.min ex ey))) as [->| |];
      try discriminate.
    rewrite Z.sub_diag. left. reflexivity. }
  all: simple_cases.
Qed.

Local Open Scope float_scope.

(** *** NaN and signs *)

Lemma mul_nan_l (x : float) : nan * x = nan.
Proof. apply Prim2SF_inj. rewrite FloatAxioms.mul_spec. reflexivity. Qed.

Lemma mul_nan_r (x : float) : x * nan = nan.
Proof.
  apply Prim2SF_inj. rewrite FloatAxioms.mul_spec.
  change (Prim2SF nan) with S754_nan. now destruct (Prim2SF x).
Qed.

Lemma add_nan_l (x : float) : nan + x = nan.
Proof. apply Prim2SF_inj. rewrite FloatAxioms.add_spec. reflexivity. Qed.

Lemma add_nan_r (x : float) : x + nan = nan.
Proof.
  apply Prim2SF_inj. rewrite FloatAxioms.add_spec.
  change (Prim2SF nan) with S754_nan. now destruct (Prim2SF x).
Qed.

Lemma sub_nan_l (x : float) : nan - x = nan.
Proof. apply Prim2SF_inj. rewrite FloatAxioms.sub_spec. reflexivity. Qed.

Lemma sub_nan_r (x : float) : x - nan = nan.
Proof.
  apply Prim2SF_inj. rewrite FloatAxioms.sub_spec.
  change (Prim2SF nan) with S754_nan. now destruct (Prim2SF x).
Qed.

Lemma div_nan_l (x : float) : nan / x = nan.
Proof. apply Prim2SF_inj. rewrite FloatAxioms.div_spec. reflexivity. Qed.

Lemma div_nan_r (x : float) : x / nan = nan.
Proof.
  apply Prim2SF_inj. rewrite FloatAxioms.div_spec.
  change (Prim2SF nan) with S754_nan. now destruct (Prim2SF x).
Qed.

Lemma ltb_nan_l (x : float) : (nan <? x) = false.
Proof. rewrite FloatAxioms.ltb_spec. reflexivity. Qed.

Lemma ltb_nan_r (x : float) : (x <? nan) = false.
Proof.
  rewrite FloatAxioms.ltb_spec. change (Prim2SF nan) with S754_nan.
  unfold SFltb. now destruct (Prim2SF x).
Qed.

(** A number that is neither [<= 0] nor [> 0] is NaN. *)
Lemma nan_of_no_sign (x : float) :
  (x <=? 0) = false -> (0 <? x) = false -> x = nan.
Proof.
  rewrite FloatAxioms.leb_spec, FloatAxioms.ltb_spec. intros Hle Hlt.
  apply Prim2SF_inj. change (Prim2SF nan) with S754_nan.
  change (Prim2SF 0) with (S754_zero false) in *.
  destruct (Prim2SF x) as [sx|sx| |sx mx ex]; try reflexivity;
    try destruct sx; discriminate.
Qed.

Lemma gtb_zero_not_leb (x : float) : (0 <? x) = true -> (x <=? 0) = false.
Proof.
  rewrite FloatAxioms.leb_spec, FloatAxioms.ltb_spec.
  change (Prim2SF 0) with (S754_zero false).
  destruct (Prim2SF x) as [sx|sx| |sx mx ex]; try destruct sx;
    try discriminate; reflexivity.
Qed.

(** A number that is not NaN is [<= 0] exactly when it is not [> 0]. *)
Lemma leb_zero_negb_gtb (x : float) :
  is_nan x = false -> (x <=? 0) = negb (0 <? x).
Proof.
  unfold is_nan.
  rewrite FloatAxioms.eqb_spec, FloatAxioms.leb_spec, FloatAxioms.ltb_spec.
  change (Prim2SF 0) with (S754_zero false).
  destruct (Prim2SF x) as [sx|sx| |sx mx ex]; try destruct sx;
    try discriminate; reflexivity.
Qed.


(** *** The sign of a difference, and quotients by and of zero *)

Lemma sub_gtb_of_ltb (x y : float) : (x <? y) = true -> (0 <? y - x) = true.
Proof.
  rewrite !FloatAxioms.ltb_spec, FloatAxioms.sub_spec.
  apply SFsub_positive; apply Prim2SF_valid.
Qed.

Lemma nonpositive_not_gtb (z : float) :
  nonpositive_sf (Prim2SF z) -> (0 <? z) = false.
Proof.
  rewrite FloatAxioms.ltb_spec. change (Prim2SF 0) with (S754_zero false).
  unfold nonpositive_sf, SFleb, SFltb.
  destruct (Prim2SF z) as [sz|sz| |sz mz ez]; try destruct sz; cbn;
    intros [H|H]; try discriminate; reflexivity.
Qed.

Lemma sub_not_gtb_of_leb (x y : float) :
  (x <=? y) = true -> (0 <? x - y) = false.
Proof.
  rewrite FloatAxioms.leb_spec. intros H. apply nonpositive_not_gtb.
  rewrite FloatAxioms.sub_spec. apply SFsub_nonpositive; auto using Prim2SF_valid.
Qed.

Lemma ltb_leb (x y : float) : (x <? y) = true -> (x <=? y) = true.
Proof.
  rewrite FloatAxioms.ltb_spec, FloatAxioms.leb_spec. unfold SFltb, SFleb.
  now destruct (SFcompare (Prim2SF x) (Prim2SF y)) as [[]|].
Qed.

Lemma zero_or_nan_spec (z : float) :
  zero_or_nan z <-> (exists sg, Prim2SF z = S754_zero sg) \/ Prim2SF z = S754_nan.
Proof.
  unfold zero_or_nan. rewrite FloatAxioms.eqb_spec.
  change (Prim2SF 0) with (S754_zero false). split.
  - intros [H | ->]; [|right; reflexivity].
    destruct (Prim2SF z) as [sz|sz| |sz mz ez]; try destruct sz;
      try discriminate; left; eauto.
  - intros [[sg H]|H].
    + left. now rewrite H.
    + right. apply Prim2SF_inj. exact H.
Qed.

Lemma sub_of_eqb (x y : float) : (x =? y) = true -> zero_or_nan (y - x).
Proof.
  rewrite FloatAxioms.eqb_spec. intros H.
  destruct (SFsub_equal _ _ (Prim2SF_valid x) (Prim2SF_valid y) H) as [H'|H'].
  - left. now rewrite FloatAxioms.eqb_spec, FloatAxioms.sub_spec.
  - right. apply Prim2SF_inj. now rewrite FloatAxioms.sub_spec.
Qed.

Lemma sqrt_of_sub_leb (x y : float) :
  (x <=? y) = true -> zero_or_nan (sqrt (x - y)).
Proof.
  rewrite FloatAxioms.leb_spec. intros H. apply zero_or_nan_spec.
  pose proof (SFsub_nonpositive _ _ (Prim2SF_valid x) (Prim2SF_valid y) H) as Hn.
  rewrite FloatAxioms.sqrt_spec, FloatAxioms.sub_spec.
  unfold nonpositive_sf, SFleb in Hn.
  destruct (SF64sub (Prim2SF x) (Prim2SF y)) as [sz|sz| |sz mz ez];
    try destruct sz; cbn in *; destruct Hn; try discriminate; eauto.
Qed.

Lemma div_of_zero_or_nan (r h : float) : zero_or_nan r -> zero_or_nan (r / h).
Proof.
  rewrite !zero_or_nan_spec, FloatAxioms.div_spec.
  intros [[sg H]|H]; rewrite H; [|right; reflexivity].
  destruct (Prim2SF h) as [sh|sh| |sh mh eh]; cbn; eauto.
Qed.

Lemma div_by_zero_or_nan (r h : float) :
  zero_or_nan h -> r / h = nan \/ r / h = infinity \/ r / h = neg_infinity.
Proof.
  rewrite zero_or_nan_spec. intros H.
  assert (Hs : Prim2SF (r / h) = S754_nan \/ Prim2SF (r / h) = S754_infinity false
               \/ Prim2SF (r / h) = S754_infinity true).
  { rewrite FloatAxioms.div_spec. destruct H as [[sg H]|H]; rewrite H.
    - destruct (Prim2SF r) as [sr|sr| |sr mr er]; cbn; auto;
        destruct (xorb _ _); auto.
    - destruct (Prim2SF r); cbn; auto. }
  destruct Hs as [Hs|[Hs|Hs]]; [left|right; left|right; right];
    apply Prim2SF_inj; exact Hs.
Qed.

Lemma zero_or_nan_below_one (m : float) :
  zero_or_nan m -> (m <? 1) = true \/ m = nan.
Proof.
  intros [H|H]; [left|now right].
  rewrite FloatAxioms.eqb_spec in H. rewrite FloatAxioms.ltb_spec.
  change (Prim2SF 0) with (S754_zero false) in H.
  change (Prim2SF 1) with (S754_finite false 4503599627370496 (-52)).
  destruct (Prim2SF m) as [sz|sz| |sz mz ez]; try destruct sz;
    try discriminate; reflexivity.
Qed.

Lemma leb_nan_l (x : float) : (nan <=? x) = false.
Proof. rewrite FloatAxioms.leb_spec. reflexivity. Qed.

Lemma ltb_not_eqb (x y : float) : (x <? y) = true -> (x =? y) = false.
Proof.
  rewrite FloatAxioms.ltb_spec, FloatAxioms.eqb_spec. unfold SFltb, SFeqb.
  now destruct (SFcompare (Prim2SF x) (Prim2SF y)) as [[]|].
Qed.

(** *** The order of the numbers that are not NaN *)

Local Open Scope Z_scope.

Lemma exponent_bound (sg : bool) (m : positive) (e : Z) :
  valid_binary (S754_finite sg m e) = true -> e <= 971.
Proof.
  cbn [SpecFloat.valid_binary]. unfold bounded. intros H.
  apply andb_prop in H as [_ H]. apply Z.leb_le in H.
  change prec with 53 in H. change emax with 1024 in H. lia.
Qed.

Lemma magnitude_bound (sg : bool) (m : positive) (e : Z) :
  valid_binary (S754_finite sg m e) = true ->
  0 < Zpos m * 2 ^ (e + 1074) < big.
Proof.
  intros V. pose proof (exponent_bound _ _ _ V) as He.
  apply canonical_facts in V as (Hmin & Hd & _).
  pose proof (digits2_bounds m) as [_ B].
  assert (Hm : Zpos m < 2 ^ 53).
  { eapply Z.lt_le_trans; [exact B|]. apply Z.pow_le_mono_r; lia. }
  assert (Hp : 0 < 2 ^ (e + 1074)) by (apply Z.pow_pos_nonneg; lia).
  assert (Hq : 2 ^ (e + 1074) <= pow2045)
    by (unfold pow2045; apply Z.pow_le_mono_r; lia).
  unfold big. generalize dependent (2 ^ (e + 1074)).
  generalize dependent pow2045. generalize dependent (2 ^ 53). intros. nia.
Qed.

Lemma key_aligned (sg : bool) (m : positive) (e ez : Z) :
  -1074 <= ez <= e ->
  key (S754_finite sg m e) = aligned sg m e ez * 2 ^ (ez + 1074).
Proof.
  intros H. rewrite aligned_value by lia. cbn [key].
  replace (e + 1074) with ((e - ez) + (ez + 1074)) by lia.
  rewrite Z.pow_add_r by lia. destruct sg; cbn [cond_Zopp]; ring.
Qed.

Lemma compare_scaled (x y c : Z) : 0 < c -> (x * c ?= y * c) = (x ?= y).
Proof.
  intros Hc. destruct (Z.compare_spec x y) as [->|H|H].
  - apply Z.compare_refl.
  - apply Z.compare_lt_iff. nia.
  - apply Z.compare_gt_iff. nia.
Qed.

(** On numbers that are not NaN, the order is the order of the keys. *)
Lemma compare_key (f1 f2 : spec_float) :
  valid_binary f1 = true -> valid_binary f2 = true ->
  f1 <> S754_nan -> f2 <> S754_nan ->
  SFcompare f1 f2 = Some (key f1 ?= key f2).
Proof.
  intros V1 V2 N1 N2.
  destruct f1 as [s1|s1| |s1 m1 e1], f2 as [s2|s2| |s2 m2 e2];
    try congruence.
  9: {
    rewrite compare_aligned by assumption.
    pose proof (canonical_facts _ _ _ V1) as [H1 _].
    pose proof (canonical_facts _ _ _ V2) as [H2 _].
    rewrite (key_aligned s1 m1 e1 (Z.min e1 e2)) by lia.
    rewrite (key_aligned s2 m2 e2 (Z.min e1 e2)) by lia.
    rewrite compare_scaled; [reflexivity|apply Z.pow_pos_nonneg; lia]. }
  all: try pose proof (magnitude_bound _ _ _ V1) as B1.
  all: try pose proof (magnitude_bound _ _ _ V2) as B2.
  all: cbn [SFcompare key]; f_equal; symmetry.
  all: repeat match goal with b : bool |- _ => destruct b end; cbn [cond_Zopp].
  all: assert (Hbig : 0 < big)
         by (unfold big, pow2045; apply Z.mul_pos_pos; apply Z.pow_pos_nonneg; lia).
  all: try reflexivity.
  all: try (apply Z.compare_lt_iff; lia).
  all: try (apply Z.compare_gt_iff; lia).
  all: try (apply Z.compare_eq_iff; lia).
Qed.

Local Open Scope float_scope.

Lemma is_nan_spec (x : float) : is_nan x = true <-> x = nan.
Proof.
  unfold is_nan. rewrite FloatAxioms.eqb_spec. split.
  - intros H. apply Prim2SF_inj. change (Prim2SF nan) with S754_nan.
    pose proof (Prim2SF_valid x) as V.
    destruct (Prim2SF x) as [sx|sx| |sx mx ex] eqn:E; try reflexivity.
    + destruct sx; discriminate H.
    + destruct sx; discriminate H.
    + unfold SFeqb in H. rewrite compare_key in H by (assumption || discriminate).
      rewrite Z.compare_refl in H. discriminate H.
  - intros ->. reflexivity.
Qed.

Lemma not_nan_spec (x : float) : is_nan x = false <-> Prim2SF x <> S754_nan.
Proof.
  split.
  - intros H E. assert (x = nan) by (apply Prim2SF_inj; exact E).
    subst x. discriminate H.
  - intros H. destruct (is_nan x) eqn:E; [|reflexivity].
    apply is_nan_spec in E. subst x. now contradiction H.
Qed.

Lemma compare_fkey (x y : float) :
  is_nan x = false -> is_nan y = false ->
  SFcompare (Prim2SF x) (Prim2SF y) = Some (fkey x ?= fkey y)%Z.
Proof.
  intros Hx Hy. apply compare_key; auto using Prim2SF_valid;
    now apply not_nan_spec.
Qed.

Lemma compare_nan (x y : float) :
  is_nan x = true \/ is_nan y = true ->
  SFcompare (Prim2SF x) (Prim2SF y) = None.
Proof.
  intros [H|H]; apply is_nan_spec in H; subst.
  - reflexivity.
  - change (Prim2SF nan) with S754_nan. now destruct (Prim2SF x).
Qed.

Lemma ltb_iff (x y : float) :
  (x <? y) = true <->
  is_nan x = false /\ is_nan y = false /\ (fkey x < fkey y)%Z.
Proof.
  rewrite FloatAxioms.ltb_spec. unfold SFltb.
  destruct (is_nan x) eqn:Hx; [rewrite compare_nan by auto; intuition discriminate|].
  destruct (is_nan y) eqn:Hy; [rewrite compare_nan by auto; intuition discriminate|].
  rewrite compare_fkey by assumption.
  destruct (Z.compare_spec (fkey x) (fkey y)); split; intros; intuition (try discriminate; try lia).
Qed.

Lemma leb_iff (x y : float) :
  (x <=? y) = true <->
  is_nan x = false /\ is_nan y = false /\ (fkey x <= fkey y)%Z.
Proof.
  rewrite FloatAxioms.leb_spec. unfold SFleb.
  destruct (is_nan x) eqn:Hx; [rewrite compare_nan by auto; intuition discriminate|].
  destruct (is_nan y) eqn:Hy; [rewrite compare_nan by auto; intuition discriminate|].
  rewrite compare_fkey by assumption.
  destruct (Z.compare_spec (fkey x) (fkey y)); split; intros; intuition (try discriminate; try lia).
Qed.

Lemma eqb_iff (x y : float) :
  (x =? y) = true <->
  is_nan x = false /\ is_nan y = false /\ fkey x = fkey y.
Proof.
  rewrite FloatAxioms.eqb_spec. unfold SFeqb.
  destruct (is_nan x) eqn:Hx; [rewrite compare_nan by auto; intuition discriminate|].
  destruct (is_nan y) eqn:Hy; [rewrite compare_nan by auto; intuition discriminate|].
  rewrite compare_fkey by assumption.
  destruct (Z.compare_spec (fkey x) (fkey y)); split; intros; intuition (try discriminate; try lia).
Qed.

Lemma ltb_trans (x y z : float) :
  (x <? y) = true -> (y <? z) = true -> (x <? z) = true.
Proof. rewrite !ltb_iff. intuition lia. Qed.

Lemma ltb_irrefl (x : float) : (x <? x) = false.
Proof.
  destruct (x <? x) eqn:H; [|reflexivity]. apply ltb_iff in H. lia.
Qed.

Lemma ltb_false_iff (x y : float) :
  (x <? y) = false <->
  is_nan x = true \/ is_nan y = true \/ (y <=? x) = true.
Proof.
  split.
  - intros H. destruct (is_nan x) eqn:Hx; [auto|].
    destruct (is_nan y) eqn:Hy; [auto|]. right. right.
    apply leb_iff. repeat split; try assumption.
    destruct (Z_lt_le_dec (fkey x) (fkey y)) as [Hlt|Hle]; [|exact Hle].
    assert (Ht : (x <? y) = true) by (apply ltb_iff; auto).
    congruence.
  - intros H. destruct (x <? y) eqn:E; [|reflexivity].
    apply ltb_iff in E. destruct H as [H|[H|H]];
      [| |apply leb_iff in H]; intuition (try congruence; try lia).
Qed.

Lemma ltb_asym (x y : float) : (x <? y) = true -> (y <? x) = false.
Proof.
  intros H. destruct (y <? x) eqn:H'; [|reflexivity].
  pose proof (ltb_trans _ _ _ H H') as Hc.
  now rewrite ltb_irrefl in Hc.
Qed.

Lemma ltb_infinity_l (x : float) : (infinity <? x) = false.
Proof.
  rewrite FloatAxioms.ltb_spec.
  change (Prim2SF infinity) with (S754_infinity false). unfold SFltb.
  destruct (Prim2SF x) as [sx|sx| |sx mx ex]; try destruct sx; reflexivity.
Qed.

(** [x - y > 0] is [y < x]: a difference of two numbers is zero only when
    they are equal, and has the sign of their order also where it overflows
    or is subnormal. *)
Lemma sub_gtb_iff (x y : float) : (x - y >? 0) = (y <? x).
Proof.
  unfold gtb. destruct (y <? x) eqn:H.
  - now apply sub_gtb_of_ltb.
  - apply ltb_false_iff in H. destruct H as [H|[H|H]].
    + apply is_nan_spec in H. subst y. rewrite sub_nan_r. apply ltb_nan_r.
    + apply is_nan_spec in H. subst x. rewrite sub_nan_l. apply ltb_nan_r.
    + now apply sub_not_gtb_of_leb.
Qed.

(** *** [>] along a chain of comparisons *)

Lemma gtb_irrefl (u : float) : (u >? u) = false.
Proof. apply ltb_irrefl. Qed.

Lemma gtb_asym (u v : float) : (v >? u) = true -> (u >? v) = false.
Proof. apply ltb_asym. Qed.

Lemma gtb_above (u v w : float) :
  (w >? u) = true -> (v >? u) = false -> (v >? w) = false.
Proof.
  unfold gtb. intros Huw Huv. destruct (w <? v) eqn:H; [|reflexivity].
  now rewrite (ltb_trans _ _ _ Huw H) in Huv.
Qed.

Lemma gtb_chain (u v w : float) :
  (v >? u) = true -> (w >? v) = true -> (u >? w) = false.
Proof.
  unfold gtb. intros Huv Hvw. apply ltb_asym. exact (ltb_trans _ _ _ Huv Hvw).
Qed.

(** *** A square root divided by a difference that is not positive *)

Lemma binary_round_aux_nonneg (m e : Z) (l : location) :
  nonnegative_sf (binary_round_aux prec emax false m e l).
Proof.
  unfold binary_round_aux.
  destruct (shr_fexp prec emax m e l) as [mrs' e'].
  destruct (shr_fexp prec emax _ e' loc_Exact) as [mrs'' e''].
  destruct (shr_m mrs'') as [|m''|m'']; try exact I.
  destruct (e'' <=? emax - prec)%Z; reflexivity.
Qed.

Lemma SFsqrt_nonnegative (r : spec_float) : nonnegative_sf (SF64sqrt r).
Proof.
  destruct r as [sr|sr| |sr mr er]; try destruct sr; try exact I;
    try reflexivity.
  unfold SF64sqrt, SFsqrt.
  destruct (SFsqrt_core_binary prec emax (Z.pos mr) er) as [[mz ez] lz].
  apply binary_round_aux_nonneg.
Qed.

Lemma nonpositive_below_one (r : spec_float) :
  nonpositive_sf r -> r = S754_nan \/ SFltb r (Prim2SF 1) = true.
Proof.
  change (Prim2SF 1) with (S754_finite false 4503599627370496 (-52)).
  unfold nonpositive_sf.
  destruct r as [sr|sr| |sr mr er]; try destruct sr;
    intros [H|H]; try discriminate H; auto.
Qed.

Lemma SFdiv_nonnegative_nonpositive (q h : spec_float) :
  nonnegative_sf q -> nonpositive_sf h ->
  SF64div q h = S754_nan \/ SFltb (SF64div q h) (Prim2SF 1) = true
  \/ SF64div q h = S754_infinity false.
Proof.
  intros Hq Hh.
  assert (Hcases : nonpositive_sf (SF64div q h)
                   \/ SF64div q h = S754_infinity false).
  { unfold nonpositive_sf in *. unfold SF64div, SFdiv.
    destruct q as [sq|sq| |sq mq eq], h as [sh|sh| |sh mh eh];
      cbn [nonnegative_sf] in Hq; subst;
      try (destruct Hh as [Hh|Hh]; [|discriminate Hh]);
      try destruct sq; try destruct sh; try discriminate Hh;
      cbv beta iota; cbn [xorb];
      try (left; left; reflexivity); try (left; right; reflexivity);
      try (right; reflexivity).
    left. destruct (SFdiv_core_binary prec emax (Z.pos mq) eq (Z.pos mh) eh)
      as [[mz ez] lz].
    apply binary_round_aux_neg. }
  destruct Hcases as [H|H]; [|auto].
  destruct (nonpositive_below_one _ H); auto.
Qed.

(** A square root over a difference [x - y] with [x <= y] is NaN, below 1, or
    plus infinity. *)
Lemma div_sqrt_by_nonpositive (r x y : float) :
  (x <=? y) = true ->
  let m := sqrt r / (x - y) in
  m = nan \/ (m <? 1) = true \/ m = infinity.
Proof.
  intros H. cbv zeta. rewrite FloatAxioms.leb_spec in H.
  pose proof (SFsub_nonpositive _ _ (Prim2SF_valid x) (Prim2SF_valid y) H)
    as Hh.
  pose proof (SFsqrt_nonnegative (Prim2SF r)) as Hq.
  rewrite <- FloatAxioms.sub_spec in Hh. rewrite <- FloatAxioms.sqrt_spec in Hq.
  destruct (SFdiv_nonnegative_nonpositive _ _ Hq Hh) as [Hd|[Hd|Hd]];
    rewrite <- FloatAxioms.div_spec in Hd.
  - left. apply Prim2SF_inj. exact Hd.
  - right. left. rewrite FloatAxioms.ltb_spec. exact Hd.
  - right. right. apply Prim2SF_inj. exact Hd.
Qed.

(** *** Numbers that are not finite *)

Lemma is_finite_spec (x : float) :
  is_finite x = false <-> nonfinite_sf (Prim2SF x).
Proof.
  unfold is_finite, is_infinity.
  destruct (is_nan x) eqn:Hn.
  - apply is_nan_spec in Hn. subst x. cbn. tauto.
  - apply not_nan_spec in Hn. cbn [orb negb].
    rewrite FloatAxioms.eqb_spec, FloatAxioms.abs_spec.
    change (Prim2SF infinity) with (S754_infinity false).
    destruct (Prim2SF x) as [sx|sx| |sx mx ex]; cbn [SFabs nonfinite_sf];
      try (split; [discriminate|tauto]); try tauto.
Qed.

(** Case analysis on operands of which one is an infinity or NaN: the
    operations then return without rounding. *)
Ltac sf_cases :=
  unfold nonfinite_sf, top_sf, SF64add, SFadd, SF64sub, SFsub, SF64mul, SFmul,
    SF64div, SFdiv, SF64sqrt, SFsqrt in *;
  repeat match goal with
         | H : _ \/ _ |- _ => destruct H
         | H : S754_finite _ _ _ = _ |- _ => discriminate H
         | H : S754_zero _ = _ |- _ => discriminate H
         | H : S754_infinity _ = S754_nan |- _ => discriminate H
         | H : S754_infinity _ = S754_infinity _ |- _ =>
             injection H as H; subst
         | H : False |- _ => contradiction
         | b : bool |- _ => destruct b
         end;
  cbv beta iota; cbn [xorb Bool.eqb negb]; auto.

Lemma top_nonfinite (x : spec_float) : top_sf x -> nonfinite_sf x.
Proof. intros [-> | ->]; exact I. Qed.

Lemma SFmul_nonfinite_l (x y : spec_float) :
  nonfinite_sf x -> nonfinite_sf (SF64mul x y).
Proof. destruct x, y; intros H; sf_cases. Qed.

Lemma SFmul_self_top (x : spec_float) :
  nonfinite_sf x -> top_sf (SF64mul x x).
Proof. destruct x; intros H; sf_cases. Qed.

Lemma SFadd_nonfinite_l (x y : spec_float) :
  nonfinite_sf x -> nonfinite_sf (SF64add x y).
Proof. destruct x, y; intros H; sf_cases. Qed.

Lemma SFsub_nonfinite_l (x y : spec_float) :
  nonfinite_sf x -> nonfinite_sf (SF64sub x y).
Proof. destruct x, y; intros H; sf_cases. Qed.

Lemma SFsub_nonfinite_r (x y : spec_float) :
  nonfinite_sf y -> nonfinite_sf (SF64sub x y).
Proof. destruct x, y; intros H; sf_cases. Qed.

Lemma SFadd_top_l (x y : spec_float) : top_sf x -> top_sf (SF64add x y).
Proof. destruct x, y; intros H; sf_cases. Qed.

Lemma SFadd_top_r (x y : spec_float) : top_sf y -> top_sf (SF64add x y).
Proof. destruct x, y; intros H; sf_cases. Qed.

Lemma SFsub_top_l (x y : spec_float) : top_sf x -> top_sf (SF64sub x y).
Proof. destruct x, y; intros H; sf_cases. Qed.

Lemma SFsqrt_top (x : spec_float) : top_sf x -> top_sf (SF64sqrt x).
Proof. destruct x; intros H; sf_cases. Qed.

Lemma SFsqrt_sub_top (x y : spec_float) :
  top_sf y -> SF64sqrt (SF64sub x y) = S754_nan.
Proof. destruct x, y; intros H; sf_cases. Qed.

Lemma SFdiv_top_l (q h : spec_float) :
  top_sf q -> nonfinite_sf (SF64div q h).
Proof. destruct q, h; intros H; sf_cases. Qed.

Lemma SFdiv_nonfinite_r (q h : spec_float) :
  nonfinite_sf h ->
  SF64div q h = S754_nan \/ exists sg, SF64div q h = S754_zero sg.
Proof. destruct q, h; intros H; sf_cases; eauto. Qed.

Lemma SFadd_nonfinite_r (x y : spec_float) :
  nonfinite_sf y -> nonfinite_sf (SF64add x y).
Proof. destruct x, y; intros H; sf_cases. Qed.

Lemma SFdiv_nan_l (h : spec_float) : SF64div S754_nan h = S754_nan.
Proof. now destruct h. Qed.

Lemma top_not_below (r t : spec_float) : top_sf r -> SFltb r t = false.
Proof.
  intros [-> | ->]; unfold SFltb; [now destruct t|].
  destruct t as [st|st| |st mt et]; try destruct st; reflexivity.
Qed.

Lemma nonfinite_degenerate (r : spec_float) :
  nonfinite_sf r ->
  r = S754_nan \/ SFltb r (Prim2SF 1) = true \/ r = S754_infinity false.
Proof.
  change (Prim2SF 1) with (S754_finite false 4503599627370496 (-52)).
  destruct r as [sr|sr| |sr mr er]; try destruct sr; try contradiction; auto.
Qed.

Lemma degenerate_of_sf (m : float) :
  Prim2SF m = S754_nan \/ SFltb (Prim2SF m) (Prim2SF 1) = true
  \/ Prim2SF m = S754_infinity false ->
  m = nan \/ (m <? 1) = true \/ m = infinity.
Proof.
  intros [H|[H|H]].
  - left. apply Prim2SF_inj. exact H.
  - right. left. rewrite FloatAxioms.ltb_spec. exact H.
  - right. right. apply Prim2SF_inj. exact H.
Qed.

(** The norm of a residual with a component that is not finite is plus
    infinity or NaN, and below no tolerance. *)
Lemma norm_of_nonfinite (f0 f1 f2 tolerance : float) :
  is_finite f0 = false \/ is_finite f1 = false \/ is_finite f2 = false ->
  (sqrt (f0 * f0 + f1 * f1 + f2 * f2) <? tolerance) = false.
Proof.
  rewrite !is_finite_spec. intros H.
  rewrite FloatAxioms.ltb_spec, FloatAxioms.sqrt_spec, !FloatAxioms.add_spec,
    !FloatAxioms.mul_spec.
  apply top_not_below, SFsqrt_top.
  destruct H as [H|[H|H]]; apply SFmul_self_top in H.
  - now apply SFadd_top_l, SFadd_top_l.
  - now apply SFadd_top_l, SFadd_top_r.
  - now apply SFadd_top_r.
Qed.

Lemma mul_nonfinite_l (x y : float) :
  is_finite x = false -> is_finite (x * y) = false.
Proof.
  rewrite !is_finite_spec, FloatAxioms.mul_spec. apply SFmul_nonfinite_l.
Qed.

Lemma add_nonfinite_l (x y : float) :
  is_finite x = false -> is_finite (x + y) = false.
Proof.
  rewrite !is_finite_spec, FloatAxioms.add_spec. apply SFadd_nonfinite_l.
Qed.

Lemma add_nonfinite_r (x y : float) :
  is_finite y = false -> is_finite (x + y) = false.
Proof.
  rewrite !is_finite_spec, FloatAxioms.add_spec. apply SFadd_nonfinite_r.
Qed.

Lemma sub_nonfinite_l (x y : float) :
  is_finite x = false -> is_finite (x - y) = false.
Proof.
  rewrite !is_finite_spec, FloatAxioms.sub_spec. apply SFsub_nonfinite_l.
Qed.

Lemma sub_nonfinite_r (x y : float) :
  is_finite y = false -> is_finite (x - y) = false.
Proof.
  rewrite !is_finite_spec, FloatAxioms.sub_spec. apply SFsub_nonfinite_r.
Qed.

(** [sqrt (s * s - v * v) / h] when [s], [v] or [h] is not finite. *)
Lemma div_sqrt_of_nonfinite (s v h : float) :
  is_finite s = false \/ is_finite v = false \/ is_finite h = false ->
  let m := sqrt (s * s - v * v) / h in
  m = nan \/ (m <? 1) = true \/ m = infinity.
Proof.
  rewrite !is_finite_spec. intros H. cbv zeta. apply degenerate_of_sf.
  rewrite FloatAxioms.div_spec, FloatAxioms.sqrt_spec, FloatAxioms.sub_spec,
    !FloatAxioms.mul_spec.
  destruct H as [H|[H|H]].
  - apply nonfinite_degenerate, SFdiv_top_l, SFsqrt_top, SFsub_top_l.
    now apply SFmul_self_top.
  - left. rewrite SFsqrt_sub_top by now apply SFmul_self_top.
    apply SFdiv_nan_l.
  - destruct (SFdiv_nonfinite_r (SF64sqrt (SF64sub (SF64mul (Prim2SF s) (Prim2SF s))
                                    (SF64mul (Prim2SF v) (Prim2SF v))))
                (Prim2SF h) H) as [Hd|[sg Hd]]; rewrite Hd; auto.
Qed.

End IEEE.

(** ** Outcomes *)

Lemma Return_inj {E T : Type} (x y : T) : @Return E T x = Return y -> x = y.
Proof. intros H. now injection H. Qed.

Lemma Return_not_Throw {E T : Type} (x : T) (e : E) : Return x <> Throw e.
Proof. discriminate. Qed.

(** ** The driver of [src/cat.tsx] *)

Section CatFacts.

Context {M : MathObject}.
Variables x1 y1 x2 y2 s : float.

Abbreviation equations := (Cat.equations x1 y1 x2 y2 s).
Abbreviation newtonRaphson := (Cat.newtonRaphson x1 y1 x2 y2 s).
Abbreviation tryGuesses := (Cat.tryGuesses x1 y1 x2 y2 s).

Lemma equations_nan (b c : float) : norm3 (equations (nan, b, c)) = nan.
Proof.
  unfold Cat.equations, norm3.
  change (nan <=? 0) with false. cbv iota zeta.
  now rewrite !IEEE.mul_nan_l, !IEEE.add_nan_l, !IEEE.sub_nan_l, !IEEE.mul_nan_l,
    !IEEE.add_nan_l.
Qed.

(** A result that verifies has [a > 0]: the test [result[0] > 0] of the driver
    never rejects a result that would verify. *)
Lemma verifies_positive (r0 r1 r2 : float) :
  verifies x1 y1 x2 y2 s (r0, r1, r2) = true -> (r0 >? 0) = true.
Proof.
  unfold verifies, gtb. intros H.
  destruct (0 <? r0) eqn:Hgt; [reflexivity|].
  destruct (r0 <=? 0) eqn:Hle.
  - unfold Cat.equations in H. rewrite Hle in H. discriminate H.
  - rewrite (IEEE.nan_of_no_sign r0 Hle Hgt), equations_nan in H. discriminate H.
Qed.

Lemma tryGuesses_cons (guess : Cat.Vec3) (rest : list Cat.Vec3) :
  tryGuesses (guess :: rest) =
    match newtonRaphson guess with
    | Some r =>
        if verifies x1 y1 x2 y2 s r then Some (paramsOf r) else tryGuesses rest
    | None => tryGuesses rest
    end.
Proof.
  cbn [Cat.tryGuesses].
  destruct (newtonRaphson guess) as [[[r0 r1] r2]|]; [|reflexivity].
  destruct (verifies x1 y1 x2 y2 s (r0, r1, r2)) eqn:Hv.
  - rewrite (verifies_positive _ _ _ Hv).
    unfold verifies, norm3 in Hv.
    destruct (equations (r0, r1, r2)) as [[e1 e2] e3]. now rewrite Hv.
  - unfold verifies, norm3 in Hv.
    destruct (equations (r0, r1, r2)) as [[e1 e2] e3]. rewrite Hv.
    now destruct (r0 >? 0).
Qed.

(** The loop over the guesses returns the result of the first guess that
    succeeds, and [None] when none does. *)
Lemma tryGuesses_first (guesses : list Cat.Vec3) :
  (exists i guess r,
      nth_error guesses i = Some guess /\ succeeds x1 y1 x2 y2 s guess r /\
      (forall j guess' r', (j < i)%nat -> nth_error guesses j = Some guess' ->
                           ~ succeeds x1 y1 x2 y2 s guess' r') /\
      tryGuesses guesses = Some (paramsOf r))
  \/ ((forall guess r, In guess guesses -> ~ succeeds x1 y1 x2 y2 s guess r) /\
      tryGuesses guesses = None).
Proof.
  induction guesses as [|g rest IH].
  - right. split; [intros ? ? []|reflexivity].
  - rewrite tryGuesses_cons.
    destruct (newtonRaphson g) as [r|] eqn:Hnr.
    + destruct (verifies x1 y1 x2 y2 s r) eqn:Hv.
      * left. exists 0%nat, g, r. repeat split; try assumption.
        intros j ? ? Hj. inversion Hj.
      * destruct IH as [(i & g' & r' & Hi & Hs & Hlt & Ht)|[Hnone Ht]].
        -- left. exists (S i), g', r'. repeat split; try assumption; try apply Hs.
           intros [|j] g'' r'' Hj Hnth.
           ++ injection Hnth as <-. intros [Hc Hv']. congruence.
           ++ apply (Hlt j); [lia|exact Hnth].
        -- right. split; [|exact Ht].
           intros g' r' [<-|Hin]; [intros [Hc Hv']; congruence|now apply Hnone].
    + destruct IH as [(i & g' & r' & Hi & Hs & Hlt & Ht)|[Hnone Ht]].
      * left. exists (S i), g', r'. repeat split; try assumption; try apply Hs.
        intros [|j] g'' r'' Hj Hnth.
        -- injection Hnth as <-. intros [Hc Hv']. congruence.
        -- apply (Hlt j); [lia|exact Hnth].
      * right. split; [|exact Ht].
        intros g' r' [<-|Hin]; [intros [Hc Hv']; congruence|now apply Hnone].
Qed.

(** Whatever the loop returns verifies, and so has [a > 0]. *)
Lemma tryGuesses_verified (guesses : list Cat.Vec3) (p : Params) :
  tryGuesses guesses = Some p ->
  verifies x1 y1 x2 y2 s (a p, b p, c p) = true /\ (a p >? 0) = true.
Proof.
  induction guesses as [|g rest IH]; [discriminate|].
  rewrite tryGuesses_cons.
  destruct (newtonRaphson g) as [[[r0 r1] r2]|]; [|exact IH].
  destruct (verifies x1 y1 x2 y2 s (r0, r1, r2)) eqn:Hv; [|exact IH].
  intros [= <-]. cbn [paramsOf a b c].
  split; [exact Hv|exact (verifies_positive _ _ _ Hv)].
Qed.

(** Past the three tests, the outcome is that of the loop over the guesses. *)
Lemma validated_outcome :
  (s <=? 0) = false ->
  (x1 =? x2) = false ->
  (s <? Cat.minArcLength x1 y1 x2 y2) = false ->
  Cat.solveCatenary ((x1, y1), (x2, y2)) s =
    Return (tryGuesses (Cat.initialGuesses x1 y1 x2 y2 s)).
Proof.
  intros Hs Hx Hmin. unfold Cat.solveCatenary. rewrite Hs, Hx. cbv zeta.
  now rewrite Hmin.
Qed.

(** An outcome with parameters comes from the loop over the guesses. *)
Lemma returned_by_tryGuesses (p : Params) :
  Cat.solveCatenary ((x1, y1), (x2, y2)) s = Return (Some p) ->
  tryGuesses (Cat.initialGuesses x1 y1 x2 y2 s) = Some p.
Proof.
  unfold Cat.solveCatenary.
  destruct (s <=? 0); [discriminate|].
  destruct (x1 =? x2); [discriminate|].
  cbv zeta. destruct (s <? Cat.minArcLength x1 y1 x2 y2); [discriminate|].
  apply Return_inj.
Qed.

End CatFacts.

(** C1.  On an input that passes the three validation tests, [solveCatenary]
    returns the parameters of the first generated guess whose Newton-Raphson
    result re-verifies with residual norm below 1e-6, and [null] when no guess
    converges and verifies; so nothing unverified is returned. *)
Theorem solveCatenary_first_verified {M : MathObject} (x1 y1 x2 y2 s : float) :
  (s <=? 0) = false ->
  (x1 =? x2) = false ->
  (s <? Cat.minArcLength x1 y1 x2 y2) = false ->
  firstVerified x1 y1 x2 y2 s (Cat.solveCatenary ((x1, y1), (x2, y2)) s).
Proof.
  intros Hs Hx Hmin. rewrite (validated_outcome _ _ _ _ _ Hs Hx Hmin).
  unfold firstVerified. cbv zeta.
  destruct (tryGuesses_first x1 y1 x2 y2 s (Cat.initialGuesses x1 y1 x2 y2 s))
    as [(i & g & r & Hi & Hsucc & Hfirst & Hres)|[Hnone Hres]].
  - left. exists i, g, r. rewrite Hres. auto.
  - right. rewrite Hres. auto.
Qed.

Lemma solveCatenary_first_verified_witness :
  firstVerified (M := Reference.math) 0 0 10 0 12
    (Cat.solveCatenary (M := Reference.math) ((0, 0), (10, 0)) 12).
Proof.
  apply (solveCatenary_first_verified (M := Reference.math) 0 0 10 0 12);
    reflexivity.
Defined.

(** ** Validation *)

(** For the points (1,0), (1,5) and [s = 0] the x-coordinates agree, and the
    error is the one of the arc length, which is tested first. *)
Lemma validation_order_counterexample :
  ~ eachErrorIffItsCondition (M := Reference.math) 1 0 1 5 0.
Proof.
  intros (_ & [_ Hx] & _).
  assert (H : Cat.solveCatenary (M := Reference.math) ((1, 0), (1, 5)) 0
              = Throw Cat.SameXCoordinates) by (apply Hx; reflexivity).
  discriminate H.
Qed.

(** C2, amended.  The three tests run in order before any iteration: the
    arc-length error is thrown iff [s <= 0]; the degenerate-input error iff
    the first test passes and the x-coordinates are equal; the too-short
    error, carrying the computed minimum, iff the first two tests pass and
    [s] is below the straight-line distance; and exactly when all three tests
    pass the outcome is that of the iteration over the initial guesses. *)
Theorem solveCatenary_validation {M : MathObject} (x1 y1 x2 y2 s : float) :
  let outcome := Cat.solveCatenary ((x1, y1), (x2, y2)) s in
  let minArcLength := Cat.minArcLength x1 y1 x2 y2 in
  (outcome = Throw Cat.ArcLengthNotPositive <-> (s <=? 0) = true)
  /\ (outcome = Throw Cat.SameXCoordinates
      <-> (s <=? 0) = false /\ (x1 =? x2) = true)
  /\ (outcome = Throw (Cat.ArcLengthTooShort s minArcLength)
      <-> (s <=? 0) = false /\ (x1 =? x2) = false
          /\ (s <? minArcLength) = true)
  /\ (outcome =
        Return (Cat.tryGuesses x1 y1 x2 y2 s (Cat.initialGuesses x1 y1 x2 y2 s))
      <-> (s <=? 0) = false /\ (x1 =? x2) = false
          /\ (s <? minArcLength) = false).
Proof.
  cbv zeta. unfold Cat.solveCatenary.
  destruct (s <=? 0); [|destruct (x1 =? x2);
    [|cbv zeta; destruct (s <? Cat.minArcLength x1 y1 x2 y2)]];
    repeat split;
    try reflexivity; try discriminate;
    try (intros (? & ? & ?); discriminate);
    try (intros (? & ?); discriminate);
    try (intros H; exfalso; symmetry in H; exact (Return_not_Throw _ _ H)).
Qed.

(** ** The linear solver *)

Lemma set_length {T : Type} (l : list T) (i : nat) (v : T) :
  length (set l i v) = length l.
Proof.
  revert i. induction l as [|h l IH]; intros [|i]; cbn; auto.
Qed.

Lemma backSubstitution_length (augmented : list (list float)) :
  length (Cat.backSubstitution augmented) = 3%nat.
Proof.
  unfold Cat.backSubstitution, Cat.range, Cat.n.
  cbn [seq rev app fold_left Nat.sub Nat.add repeat].
  now rewrite !set_length.
Qed.

Lemma jacobian_is3x3 {M : MathObject} (x1 x2 : float) (params : Cat.Vec3) :
  is3x3 (Cat.jacobian x1 x2 params).
Proof.
  destruct params as [[a b] c]. unfold Cat.jacobian.
  destruct (a <=? 0); (split; [reflexivity|repeat constructor]).
Qed.

(** C3 (the code departs from the claim).  On the zero matrix, whose every
    pivot is zero, with the right-hand side the driver builds from the
    sentinel residual, [solveLinearSystem] returns three NaN; and on every
    3 x 3 system, the only shape the driver passes, it returns a vector of
    three numbers: no failure is signalled, and the [catch] around the call
    in [newtonRaphson] is never entered. *)
Theorem solveLinearSystem_zero_pivot {M : MathObject} :
  Cat.solveLinearSystem [[0; 0; 0]; [0; 0; 0]; [0; 0; 0]]
    [neg_infinity; neg_infinity; neg_infinity] = Return [nan; nan; nan]
  /\ (forall x1 x2 params, is3x3 (Cat.jacobian x1 x2 params))
  /\ (forall A b, is3x3 A -> length b = 3%nat ->
        exists delta,
          Cat.solveLinearSystem A b = Return delta
          /\ length delta = 3%nat
          /\ forall (U : Type) (k : list float -> U) (handler : U),
               try_catch (Cat.solveLinearSystem A b) k handler = k delta).
Proof.
  split; [|split].
  - vm_compute. reflexivity.
  - intros x1 x2 params. apply jacobian_is3x3.
  - intros A b _ _. unfold Cat.solveLinearSystem. eexists.
    split; [reflexivity|]. split; [apply backSubstitution_length|reflexivity].
Qed.

(** ** The line search *)

Section LineSearch.

Context {M : MathObject}.
Variables x1 y1 x2 y2 s : float.
Variables (params : Cat.Vec3) (delta : list float) (residual : float).

Abbreviation accepted := (accepts x1 y1 x2 y2 s params delta residual).
Abbreviation update := (candidate params delta).

Lemma lineSearchFrom_step (budget ls : nat) :
  Cat.lineSearchFrom x1 y1 x2 y2 s (S budget) ls (stepSizeAt ls)
    params delta residual =
  if accepted ls then update ls
  else Cat.lineSearchFrom x1 y1 x2 y2 s budget (S ls) (stepSizeAt (S ls))
         params delta residual.
Proof.
  cbn [Cat.lineSearchFrom].
  unfold accepts, feasible, newNorm, candidate.
  destruct params as [[p0 p1] p2].
  change (stepSizeAt (S ls)) with (stepSizeAt ls * 0.5).
  destruct (p0 + stepSizeAt ls * get delta 0 >? 0); [|reflexivity].
  destruct (Cat.equations x1 y1 x2 y2 s _) as [[r0 r1] r2].
  cbn [andb]. now destruct (_ || _).
Qed.

Lemma lineSearchFrom_first (budget ls : nat) :
  (ls + budget = 10)%nat ->
  (exists k, (ls <= k < 10)%nat /\ accepted k = true /\
             (forall j, (ls <= j < k)%nat -> accepted j = false) /\
             Cat.lineSearchFrom x1 y1 x2 y2 s budget ls (stepSizeAt ls)
               params delta residual = update k)
  \/ ((forall j, (ls <= j < 10)%nat -> accepted j = false) /\
      Cat.lineSearchFrom x1 y1 x2 y2 s budget ls (stepSizeAt ls)
        params delta residual = params).
Proof.
  revert ls. induction budget as [|budget IH]; intros ls Hsum.
  - right. split; [intros j Hj; lia|reflexivity].
  - rewrite lineSearchFrom_step. destruct (accepted ls) eqn:Hacc.
    + left. exists ls. split; [lia|]. split; [assumption|].
      split; [intros j Hj; lia|reflexivity].
    + destruct (IH (S ls) ltac:(lia))
        as [(k & Hk & Hak & Hbefore & Hres)|[Hnone Hres]].
      * left. exists k. split; [lia|]. split; [assumption|].
        split; [|assumption].
        intros j Hj. destruct (Nat.eq_dec j ls) as [->|Hne]; [assumption|].
        apply Hbefore. lia.
      * right. split; [|assumption].
        intros j Hj. destruct (Nat.eq_dec j ls) as [->|Hne]; [assumption|].
        apply Hnone. lia.
Qed.

(** An iteration that has not converged solves for the step, runs the line
    search and goes on with its outcome, whichever that is. *)
Lemma iterate_step (fuel : nat) (tolerance : float) :
  (norm3 (Cat.equations x1 y1 x2 y2 s params) <? tolerance) = false ->
  exists step,
    Cat.solveLinearSystem (Cat.jacobian x1 x2 params)
      (negated (Cat.equations x1 y1 x2 y2 s params)) = Return step
    /\ Cat.iterate x1 y1 x2 y2 s (S fuel) tolerance params
       = Cat.iterate x1 y1 x2 y2 s fuel tolerance
           (Cat.lineSearch x1 y1 x2 y2 s params step
              (norm3 (Cat.equations x1 y1 x2 y2 s params))).
Proof.
  cbn [Cat.iterate]. unfold norm3, negated.
  destruct (Cat.equations x1 y1 x2 y2 s params) as [[f0 f1] f2].
  intros H. rewrite H. unfold Cat.solveLinearSystem. cbn [try_catch].
  eexists. split; reflexivity.
Qed.

End LineSearch.

(** With [params = (1, 0, 0)] and [delta = [-2048, 0, 0]] every one of the ten
    updates has [a <= 0], the tenth being [(-3, 0, 0)]: none is taken and
    [params] stays as it was. *)
Lemma lineSearch_exhausted_counterexample :
  ~ lastUpdateAccepted (M := Reference.math) 0 0 10 0 12
      (1, 0, 0) [-2048; 0; 0] 1.
Proof.
  intros H.
  assert (Hall : forall j, (j < 10)%nat ->
            improves (M := Reference.math) 0 0 10 0 12
              (1, 0, 0) [-2048; 0; 0] 1 j = false).
  { intros j Hj.
    do 10 (destruct j as [|j]; [reflexivity|]). lia. }
  specialize (H Hall).
  apply (f_equal (fun '(p0, _, _) => p0 >? 0)) in H.
  vm_compute in H. discriminate H.
Qed.

(** C4, amended.  The line search tries the step sizes 1.0, 0.5, ... for at
    most ten attempts and takes the first update that keeps [a > 0] and either
    has a strictly smaller residual norm or is the tenth attempt; when no
    attempt qualifies (in particular when the tenth update has [a <= 0]) the
    parameters are left unchanged.  Either way the iteration goes on, from the
    outcome of the line search. *)
Theorem lineSearch_outcome {M : MathObject} (x1 y1 x2 y2 s : float)
    (params : Cat.Vec3) (delta : list float) (residual : float) :
  stepSizeAt 0 = 1.0
  /\ (forall k, stepSizeAt (S k) = stepSizeAt k * 0.5)
  /\ (forall fuel tolerance,
        (norm3 (Cat.equations x1 y1 x2 y2 s params) <? tolerance) = false ->
        exists step,
          Cat.solveLinearSystem (Cat.jacobian x1 x2 params)
            (negated (Cat.equations x1 y1 x2 y2 s params)) = Return step
          /\ Cat.iterate x1 y1 x2 y2 s (S fuel) tolerance params
             = Cat.iterate x1 y1 x2 y2 s fuel tolerance
                 (Cat.lineSearch x1 y1 x2 y2 s params step
                    (norm3 (Cat.equations x1 y1 x2 y2 s params))))
  /\ ((exists k, (k < 10)%nat
         /\ accepts x1 y1 x2 y2 s params delta residual k = true
         /\ (forall j, (j < k)%nat ->
               accepts x1 y1 x2 y2 s params delta residual j = false)
         /\ Cat.lineSearch x1 y1 x2 y2 s params delta residual
            = candidate params delta k)
      \/ ((forall j, (j < 10)%nat ->
             accepts x1 y1 x2 y2 s params delta residual j = false)
          /\ Cat.lineSearch x1 y1 x2 y2 s params delta residual = params)).
Proof.
  split; [reflexivity|]. split; [reflexivity|].
  split; [intros fuel tolerance; apply iterate_step|].
  unfold Cat.lineSearch.
  destruct
    (lineSearchFrom_first x1 y1 x2 y2 s params delta residual 10 0 eq_refl)
    as [(k & Hk & Hacc & Hbefore & Hres)|[Hnone Hres]].
  - left. exists k. split; [lia|]. split; [assumption|].
    split; [|assumption]. intros j Hj. apply Hbefore. lia.
  - right. split; [|assumption]. intros j Hj. apply Hnone. lia.
Qed.

(** ** The order of the two points *)

(** With the points (0,0), (10,0) and [s = 12] the solver finds parameters in
    this order and returns [null] in the other: it does not order them. *)
Lemma order_counterexample :
  ~ exists tol, orderInvariant (M := Reference.math) tol (0, 0) (10, 0) 12.
Proof.
  intros [tol H]. unfold orderInvariant in H.
  vm_compute in H. exact H.
Qed.

(** C5, amended.  Neither solver orders its points; the application orders
    them with [sortX] before it solves.  For two points with [x_P < x_Q],
    [sortX] yields [(P, Q)] from either order, so that solving after [sortX]
    gives one and the same outcome for [(P, Q)] and [(Q, P)], with either
    solver. *)
Theorem sortX_order_invariant {M : MathObject} (P Q : Point) (s : float) :
  (fst P <? fst Q) = true ->
  App.sortX (P, Q) = (P, Q)
  /\ App.sortX (Q, P) = (P, Q)
  /\ App.solveOrdered (Q, P) s = App.solveOrdered (P, Q) s
  /\ Cat.solveCatenary (App.sortX (Q, P)) s
     = Cat.solveCatenary (App.sortX (P, Q)) s.
Proof.
  intros H.
  assert (H1 : App.sortX (P, Q) = (P, Q)).
  { unfold App.sortX, gtb.
    now rewrite (IEEE.sub_not_gtb_of_leb _ _ (IEEE.ltb_leb _ _ H)). }
  assert (H2 : App.sortX (Q, P) = (P, Q)).
  { unfold App.sortX, gtb. now rewrite (IEEE.sub_gtb_of_ltb _ _ H). }
  unfold App.solveOrdered. rewrite H1, H2. auto.
Qed.

Lemma sortX_order_invariant_witness :
  App.sortX ((0, 0), (10, 0)) = ((0, 0), (10, 0))
  /\ App.sortX ((10, 0), (0, 0)) = ((0, 0), (10, 0))
  /\ App.solveOrdered (M := Reference.math) ((10, 0), (0, 0)) 12
     = App.solveOrdered (M := Reference.math) ((0, 0), (10, 0)) 12
  /\ Cat.solveCatenary (M := Reference.math) (App.sortX ((10, 0), (0, 0))) 12
     = Cat.solveCatenary (M := Reference.math) (App.sortX ((0, 0), (10, 0))) 12.
Proof.
  apply (sortX_order_invariant (M := Reference.math) (0, 0) (10, 0) 12).
  reflexivity.
Defined.

(** ** The returned parameters *)

(** C6.  Whenever [solveCatenary] returns parameters, their [a] is strictly
    positive. *)
Theorem solveCatenary_a_positive {M : MathObject}
    (points : Point * Point) (s : float) (p : Params) :
  Cat.solveCatenary points s = Return (Some p) -> (a p >? 0) = true.
Proof.
  destruct points as [[x1 y1] [x2 y2]]. intros H.
  apply returned_by_tryGuesses in H.
  exact (proj2 (tryGuesses_verified _ _ _ _ _ _ _ H)).
Qed.

Lemma solveCatenary_a_positive_witness :
  (a {| a := 4.6954152312650219; b := 5; c := -7.6188532072743547 |} >? 0) = true.
Proof.
  apply (solveCatenary_a_positive (M := Reference.math) ((0, 0), (10, 0)) 12).
  vm_compute. reflexivity.
Defined.

(** ** The equation builder *)

(** C7.  For [a > 0] the equation builder returns exactly the three residuals
    [a cosh((x1-b)/a) + c - y1], [a cosh((x2-b)/a) + c - y2] and
    [a (sinh((x2-b)/a) - sinh((x1-b)/a)) - s]; for [a <= 0] it returns the
    sentinel of three infinities, whose norm is infinite; being a total
    function it throws in neither case. *)
Theorem equations_residuals {M : MathObject} (x1 y1 x2 y2 s a b c : float) :
  ((a >? 0) = true ->
   Cat.equations x1 y1 x2 y2 s (a, b, c) =
     (a * cosh ((x1 - b) / a) + c - y1,
      a * cosh ((x2 - b) / a) + c - y2,
      a * (sinh ((x2 - b) / a) - sinh ((x1 - b) / a)) - s))
  /\ ((a <=? 0) = true ->
      Cat.equations x1 y1 x2 y2 s (a, b, c) = (infinity, infinity, infinity)
      /\ norm3 (Cat.equations x1 y1 x2 y2 s (a, b, c)) = infinity).
Proof.
  split; intros H; unfold Cat.equations.
  - now rewrite (IEEE.gtb_zero_not_leb a H).
  - rewrite H. split; reflexivity.
Qed.

Lemma equations_residuals_witness :
  Cat.equations (M := Reference.math) 0 0 10 0 12 (2, 5, -1) =
    (2 * Reference.cosh ((0 - 5) / 2) + -1 - 0,
     2 * Reference.cosh ((10 - 5) / 2) + -1 - 0,
     2 * (Reference.sinh ((10 - 5) / 2) - Reference.sinh ((0 - 5) / 2)) - 12)
  /\ norm3 (Cat.equations (M := Reference.math) 0 0 10 0 12 (-2, 5, -1))
     = infinity.
Proof.
  split.
  - apply (proj1 (equations_residuals (M := Reference.math) 0 0 10 0 12 2 5 (-1))).
    reflexivity.
  - apply (proj2 (equations_residuals (M := Reference.math) 0 0 10 0 12 (-2) 5 (-1))).
    reflexivity.
Defined.

(** ** The initial guesses *)

(** For the points (0,0), (10,0) and [s = 12] there are 13 guesses, not the
    16 of the claim: the factor 1.0 has no variant, and the guess with the
    estimated [a] itself and [b] shifted by a tenth of the x-span, which the
    claim lists, is not generated. *)
Lemma initialGuesses_counterexample :
  Cat.initialGuesses (M := Reference.math) 0 0 10 0 12
  <> claimedInitialGuesses (M := Reference.math) 0 0 10 0 12
  /\ In (3.4961294151728466, 6, -3.4961294151728466)
       (claimedInitialGuesses (M := Reference.math) 0 0 10 0 12)
  /\ ~ In (3.4961294151728466, 6, -3.4961294151728466)
         (Cat.initialGuesses (M := Reference.math) 0 0 10 0 12).
Proof.
  split; [|split].
  - intros H. apply (f_equal (@length Cat.Vec3)) in H.
    vm_compute in H. discriminate H.
  - vm_compute. do 5 right. left. reflexivity.
  - intros H. vm_compute in H.
    repeat (destruct H as [H|H];
            [apply (f_equal (fun '(a, b, _) =>
                               (a =? 3.4961294151728466) && (b =? 6))) in H;
             vm_compute in H; discriminate H|]).
    exact H.
Qed.

(** C8, amended.  The estimated [a] is the closed-form estimate when that is
    finite and positive, and [s / 4] otherwise; the list of guesses is the
    symmetric guess ([b] at the x-midpoint, the estimated [a]) followed by the
    variants for the factors 0.5, 1.5, 2.0 and 3.0 of the estimated [a], each
    with [b] at the midpoint and at plus and minus 10% of the x-span. *)
Theorem initialGuesses_list {M : MathObject} (x1 y1 x2 y2 s : float) :
  let estimate := s / (2 * sinh (Cat.dx x1 x2 / (2 * s / PI))) in
  let estimatedA := Cat.estimatedA x1 x2 s in
  let midX := Cat.midX x1 x2 in
  let midY := Cat.midY y1 y2 in
  estimatedA
  = (if isFinite estimate && (estimate >? 0) then estimate else s / 4)
  /\ midX = (x1 + x2) / 2
  /\ Cat.initialGuesses x1 y1 x2 y2 s =
       (estimatedA, midX, midY - estimatedA)
       :: flat_map (guessesOfFactor estimatedA midX midY (x2 - x1))
            [0.5; 1.5; 2.0; 3.0].
Proof.
  cbv zeta. split; [|split; reflexivity].
  unfold Cat.estimatedA, isFinite, gtb. cbv zeta.
  set (e := s / (2 * sinh (Cat.dx x1 x2 / (2 * s / PI)))).
  unfold is_finite. destruct (is_nan e) eqn:Hnan; [reflexivity|].
  rewrite (IEEE.leb_zero_negb_gtb e Hnan).
  cbn [orb negb]. destruct (is_infinity e); [reflexivity|].
  cbn [orb negb andb]. now destruct (0 <? e).
Qed.

(** ** The fixed-point solver *)

Section AppFacts.

Context {M : MathObject}.

Lemma iterateX_nan (budget : nat) (m prevx : float) :
  App.iterateX budget m nan prevx = nan.
Proof.
  destruct budget as [|budget]; [reflexivity|].
  cbn [App.iterateX]. now rewrite IEEE.sub_nan_l.
Qed.

Lemma iterateX_infinity (budget : nat) :
  App.iterateX (S budget) infinity infinity (-1) = nan.
Proof.
  cbn [App.iterateX].
  change (abs (infinity - -1) >? App.TOO_SMALL) with true. cbv iota zeta.
  rewrite sinh_infinity, cosh_infinity.
  change (infinity - (infinity - infinity * infinity) / (infinity - infinity))
    with nan.
  apply iterateX_nan.
Qed.

(** Once [x] is NaN, so are the three parameters. *)
Lemma params_of_nan (x1 y1 h s v : float) :
  let a := h / (2 * nan) in
  let offsetX := x1 - ((a * log ((s + v) / (s - v)) - h) * 0.5) in
  let offsetY := y1 - (a * cosh ((x1 - offsetX) / a)) in
  a = nan /\ offsetX = nan /\ offsetY = nan.
Proof.
  cbv zeta. rewrite IEEE.mul_nan_r, IEEE.div_nan_r.
  now rewrite !IEEE.mul_nan_l, !IEEE.sub_nan_l, !IEEE.mul_nan_l, !IEEE.sub_nan_r.
Qed.

(** The iteration started from [acosh m + 1] ends on NaN when [m] is NaN,
    below 1, or infinite. *)
Lemma iterateX_degenerate (m : float) :
  m = nan \/ (m <? 1) = true \/ m = infinity ->
  App.iterateX 100 m (acosh m + 1) (-1) = nan.
Proof.
  intros [-> | [H | ->]].
  - rewrite acosh_nan. apply iterateX_nan.
  - rewrite (acosh_below_one m H). apply iterateX_nan.
  - rewrite acosh_infinity. apply iterateX_infinity.
Qed.

Lemma solveCatenary_degenerate (x1 y1 x2 y2 s : float) :
  let m := sqrt (s * s - (y2 - y1) * (y2 - y1)) / (x2 - x1) in
  m = nan \/ (m <? 1) = true \/ m = infinity ->
  exists p, App.solveCatenary ((x1, y1), (x2, y2)) s = Return p /\ allNaN p.
Proof.
  cbv zeta. intros Hm. unfold App.solveCatenary. cbv zeta.
  rewrite (iterateX_degenerate _ Hm).
  eexists. split; [reflexivity|]. unfold allNaN. cbn [a b c].
  apply params_of_nan.
Qed.

(** For the points (0,0), (2,3) and [s = Math.sqrt(13)], their distance as
    both files compute it, the fixed-point solver gets [m < 1] by rounding and
    returns three NaN, whatever the [Math] object. *)
Lemma fixedPoint_at_chord :
  exists q, App.solveCatenary ((0, 0), (2, 3)) (sqrt 13) = Return q /\ allNaN q.
Proof.
  apply solveCatenary_degenerate. cbv zeta. right. left. reflexivity.
Qed.

(** The arc length enters through [s * s] and [(s + v) / (s - v)] only: for
    two points of equal height the solver cannot tell [-12] from [12]. *)
Lemma fixedPoint_sign_blind :
  App.solveCatenary ((0, 0), (10, 0)) (-12)
  = App.solveCatenary ((0, 0), (10, 0)) 12.
Proof. reflexivity. Qed.

End AppFacts.

Lemma closeParams_nan (tol : float) (p q : Params) :
  a q = nan -> closeParams tol p q = false.
Proof.
  intros H. unfold closeParams. rewrite H, IEEE.sub_nan_r.
  change (abs nan) with nan. now rewrite IEEE.leb_nan_l.
Qed.

(** Whatever the [Math] object and the tolerance, the two solvers do not
    agree for the points (0,0), (2,3) and [s = Math.sqrt(13)]. *)
Lemma solvers_disagree_at_chord {M : MathObject} (tol : float) :
  ~ solversAgree tol 0 0 2 3 (sqrt 13).
Proof.
  intros (p & q & _ & Hq & Hclose).
  destruct fixedPoint_at_chord as (q' & Hq' & Hnan & _).
  rewrite Hq' in Hq. apply Return_inj in Hq. subst q'.
  rewrite (closeParams_nan tol p q Hnan) in Hclose. discriminate Hclose.
Qed.

(** ** The two solvers side by side *)

(** For the points (0,0), (2,3) and [s = Math.sqrt(13)] the input is valid
    and the fixed-point solver returns three NaN, which are within no
    tolerance of any parameters.  (The inputs on which the Newton-Raphson
    solver misses a solution, and the reason, are at the end of the file.) *)
Lemma solvers_disagree_at_valid_chord :
  validInput (M := Reference.math) 0 0 2 3 (sqrt 13) = true
  /\ ~ exists tol, solversAgree (M := Reference.math) tol 0 0 2 3 (sqrt 13).
Proof.
  split; [reflexivity|].
  intros [tol H]. exact (solvers_disagree_at_chord tol H).
Qed.

(** ** The fixed-point solver on infeasible inputs *)

(** The points (0,0), (10,0) with [s = -12], and the points (0,0), (9,1) with
    [s] the float just below their distance: the arc length is less than the
    distance, and the three fields are finite. *)
Lemma fixedPoint_finite_counterexample :
  ~ infeasibleGivesNonFinite (M := Reference.math) 0 0 10 0 (-12)
  /\ ~ infeasibleGivesNonFinite (M := Reference.math) 0 0 9 1
         (next_down (sqrt 82)).
Proof.
  split; intros H.
  - destruct (H eq_refl) as (p & Hp & Hnf).
    apply Return_inj in Hp. subst p. vm_compute in Hnf. discriminate Hnf.
  - destruct (H eq_refl) as (p & Hp & Hnf).
    apply Return_inj in Hp. subst p. vm_compute in Hnf. discriminate Hnf.
Qed.

(** C10, amended.  The fixed-point solver validates nothing and throws on no
    input: it always returns an object.  The three fields of that object are
    NaN when the two points have the same x-coordinate, when
    [s * s <= (y2 - y1) * (y2 - y1)], and whenever the ratio
    [m = Math.sqrt(s * s - v * v) / h] that the solver computes is below 1
    (or NaN, or plus infinity).  In exact arithmetic [m < 1] is the case of an
    arc length [0 <= s] below the distance of the points (lemma
    [ratio_below_chord] at the end of the file), as for the points (0,0),
    (10,0) with [s = 5]; the computed [m] is not below 1 when [s] is one
    float below the computed distance, nor for a negative [s] of large
    absolute value, and the fields are finite then. *)
Theorem fixedPoint_total {M : MathObject} (x1 y1 x2 y2 s : float) :
  exists p,
    App.solveCatenary ((x1, y1), (x2, y2)) s = Return p
    /\ ((x1 =? x2) = true -> allNaN p)
    /\ ((s * s <=? (y2 - y1) * (y2 - y1)) = true -> allNaN p)
    /\ (let m := sqrt (s * s - (y2 - y1) * (y2 - y1)) / (x2 - x1) in
        m = nan \/ (m <? 1) = true \/ m = infinity -> allNaN p).
Proof.
  destruct (App.solveCatenary ((x1, y1), (x2, y2)) s) as [p|e] eqn:Hp;
    [|discriminate Hp].
  exists p. split; [reflexivity|].
  assert (Hdeg : let m := sqrt (s * s - (y2 - y1) * (y2 - y1)) / (x2 - x1) in
                 m = nan \/ (m <? 1) = true \/ m = infinity -> allNaN p).
  { intros m Hm.
    destruct (solveCatenary_degenerate x1 y1 x2 y2 s Hm) as (q & Hq & Hnan).
    rewrite Hq in Hp. apply Return_inj in Hp. now subst q. }
  split; [|split; [|exact Hdeg]]; intros H; apply Hdeg; cbv zeta.
  - destruct (IEEE.div_by_zero_or_nan (sqrt (s * s - (y2 - y1) * (y2 - y1)))
                (x2 - x1) (IEEE.sub_of_eqb _ _ H)) as [Hd|[Hd|Hd]];
      rewrite Hd; auto.
  - destruct (IEEE.zero_or_nan_below_one _
                (IEEE.div_of_zero_or_nan _ (x2 - x1)
                   (IEEE.sqrt_of_sub_leb _ _ H))) as [Hd|Hd]; auto.
Qed.

(** The points (1,0), (1,5) of equal x-coordinate, and the points (0,0),
    (10,0) with the arc length 5, half their distance. *)
Lemma fixedPoint_total_witness :
  (exists p,
      App.solveCatenary (M := Reference.math) ((1, 0), (1, 5)) 3 = Return p
      /\ allNaN p)
  /\ (exists p,
        App.solveCatenary (M := Reference.math) ((0, 0), (10, 0)) 5 = Return p
        /\ allNaN p).
Proof.
  split.
  - destruct (fixedPoint_total (M := Reference.math) 1 0 1 5 3)
      as (p & Hp & Hsame & _).
    exists p. split; [exact Hp|]. apply Hsame. reflexivity.
  - destruct (fixedPoint_total (M := Reference.math) 0 0 10 0 5)
      as (p & Hp & _ & _ & Hbelow).
    exists p. split; [exact Hp|]. apply Hbelow. right. left. reflexivity.
Defined.

(** ** Sample runs with the reference [Math] object *)

(** The points (0,0), (10,0) with arc length 12: both solvers find the
    symmetric catenary, and agree to twelve digits. *)
Example newton_sample :
  Cat.solveCatenary (M := Reference.math) ((0, 0), (10, 0)) 12
  = Return (Some {| a := 4.6954152312650219; b := 5;
                    c := -7.6188532072743547 |}).
Proof. vm_compute. reflexivity. Qed.

Example fixedPoint_sample :
  App.solveCatenary (M := Reference.math) ((0, 0), (10, 0)) 12
  = Return {| a := 4.6954152312652795; b := 5; c := -7.6188532072745678 |}.
Proof. vm_compute. reflexivity. Qed.

(** The same points in descending order of x: no guess succeeds. *)
Example newton_descending_sample :
  Cat.solveCatenary (M := Reference.math) ((10, 0), (0, 0)) 12 = Return None.
Proof. vm_compute. reflexivity. Qed.

(** The smallest positive number as x-span and as arc length passes the
    validation; every guess then has [a = 0], the Jacobian is the zero matrix
    and the residual the sentinel, so that [solveLinearSystem] receives the
    system with zero pivots of C3; the outcome is [null]. *)
Example zero_pivot_reached :
  let tiny := 0x1p-1074 in
  Forall (fun guess => guess = (0, 0, 0))
    (Cat.initialGuesses (M := Reference.math) 0 0 tiny 0 tiny)
  /\ Cat.jacobian (M := Reference.math) 0 tiny (0, 0, 0)
     = [[0; 0; 0]; [0; 0; 0]; [0; 0; 0]]
  /\ Cat.equations (M := Reference.math) 0 0 tiny 0 tiny (0, 0, 0)
     = (infinity, infinity, infinity)
  /\ Cat.solveCatenary (M := Reference.math) ((0, 0), (tiny, 0)) tiny
     = Return None.
Proof.
  cbv zeta. split; [|split; [|split]].
  - vm_compute. repeat constructor.
  - reflexivity.
  - reflexivity.
  - vm_compute. reflexivity.
Qed.

(** * Further properties of the code *)

(** ** What a converged iteration guarantees *)

Section Convergence.

Context {M : MathObject}.
Variables x1 y1 x2 y2 s : float.

(** The loop returns only parameters whose residual norm is below its
    tolerance. *)
Lemma iterate_converged (fuel : nat) (tolerance : float) :
  forall params r,
    Cat.iterate x1 y1 x2 y2 s fuel tolerance params = Some r ->
    (norm3 (Cat.equations x1 y1 x2 y2 s r) <? tolerance) = true.
Proof.
  induction fuel as [|fuel IH]; intros params r; [discriminate|].
  cbn [Cat.iterate].
  destruct (Cat.equations x1 y1 x2 y2 s params) as [[f0 f1] f2] eqn:E.
  destruct (sqrt (f0 * f0 + f1 * f1 + f2 * f2) <? tolerance) eqn:H.
  - intros [= <-]. unfold norm3. rewrite E. exact H.
  - unfold Cat.solveLinearSystem. cbn [try_catch]. apply IH.
Qed.

(** On parameters that meet the tolerance, the loop stops at once. *)
Lemma iterate_fixed (fuel : nat) (tolerance : float) (r : Cat.Vec3) :
  (norm3 (Cat.equations x1 y1 x2 y2 s r) <? tolerance) = true ->
  Cat.iterate x1 y1 x2 y2 s (S fuel) tolerance r = Some r.
Proof.
  cbn [Cat.iterate]. unfold norm3.
  destruct (Cat.equations x1 y1 x2 y2 s r) as [[f0 f1] f2].
  now intros ->.
Qed.

(** A larger iteration budget does not change a result. *)
Lemma iterate_more_fuel (fuel extra : nat) (tolerance : float) :
  forall params r,
    Cat.iterate x1 y1 x2 y2 s fuel tolerance params = Some r ->
    Cat.iterate x1 y1 x2 y2 s (fuel + extra) tolerance params = Some r.
Proof.
  induction fuel as [|fuel IH]; intros params r; [discriminate|].
  cbn [Cat.iterate Nat.add].
  destruct (Cat.equations x1 y1 x2 y2 s params) as [[f0 f1] f2].
  destruct (sqrt (f0 * f0 + f1 * f1 + f2 * f2) <? tolerance); [trivial|].
  unfold Cat.solveLinearSystem. cbn [try_catch]. apply IH.
Qed.

Lemma converged_verifies (r : Cat.Vec3) :
  (norm3 (Cat.equations x1 y1 x2 y2 s r) <? 1e-10) = true ->
  verifies x1 y1 x2 y2 s r = true.
Proof.
  intros H. unfold verifies. apply (IEEE.ltb_trans _ _ _ H). reflexivity.
Qed.

(** With the re-verification always passing, the loop over the guesses
    returns the first result of the iteration. *)
Lemma tryGuesses_firstConverged (guesses : list Cat.Vec3) :
  Cat.tryGuesses x1 y1 x2 y2 s guesses
  = option_map paramsOf (firstConverged x1 y1 x2 y2 s guesses).
Proof.
  induction guesses as [|g rest IH]; [reflexivity|].
  rewrite tryGuesses_cons. cbn [firstConverged].
  destruct (Cat.newtonRaphson x1 y1 x2 y2 s g) as [r|] eqn:Hnr; [|exact IH].
  apply iterate_converged in Hnr.
  now rewrite (converged_verifies r Hnr).
Qed.

End Convergence.

(** X1.  Whatever [newtonRaphson] returns has a residual norm below the
    tolerance 1e-10 and [a > 0], and passes the re-verification of the
    driver. *)
Theorem newtonRaphson_converged {M : MathObject} (x1 y1 x2 y2 s : float)
    (guess r : Cat.Vec3) :
  Cat.newtonRaphson x1 y1 x2 y2 s guess = Some r ->
  (norm3 (Cat.equations x1 y1 x2 y2 s r) <? 1e-10) = true
  /\ (fst (fst r) >? 0) = true
  /\ verifies x1 y1 x2 y2 s r = true.
Proof.
  intros H. apply iterate_converged in H.
  pose proof (converged_verifies _ _ _ _ _ r H) as Hv.
  split; [exact H|]. split; [|exact Hv].
  destruct r as [[r0 r1] r2]. exact (verifies_positive _ _ _ _ _ _ _ _ Hv).
Qed.

Lemma newtonRaphson_converged_witness :
  let r := (4.6954152312650219, 5, -7.6188532072743547) in
  (norm3 (Cat.equations (M := Reference.math) 0 0 10 0 12 r) <? 1e-10) = true
  /\ (fst (fst r) >? 0) = true
  /\ verifies (M := Reference.math) 0 0 10 0 12 r = true.
Proof.
  apply (newtonRaphson_converged (M := Reference.math) 0 0 10 0 12
           (3.4961294151728466, 5, -3.4961294151728466)).
  vm_compute. reflexivity.
Defined.

(** X2.  [newtonRaphson] is idempotent: started from a result of its own, it
    returns that result unchanged. *)
Theorem newtonRaphson_idempotent {M : MathObject} (x1 y1 x2 y2 s : float)
    (guess r : Cat.Vec3) :
  Cat.newtonRaphson x1 y1 x2 y2 s guess = Some r ->
  Cat.newtonRaphson x1 y1 x2 y2 s r = Some r.
Proof.
  intros H. apply iterate_converged in H. now apply iterate_fixed.
Qed.

Lemma newtonRaphson_idempotent_witness :
  Cat.newtonRaphson (M := Reference.math) 0 0 10 0 12
    (4.6954152312650219, 5, -7.6188532072743547)
  = Some (4.6954152312650219, 5, -7.6188532072743547).
Proof.
  apply (newtonRaphson_idempotent (M := Reference.math) 0 0 10 0 12
           (3.4961294151728466, 5, -3.4961294151728466)).
  vm_compute. reflexivity.
Defined.

(** X3.  The iteration budget only cuts runs short: a result that the loop of
    [newtonRaphson] finds within [maxIter] iterations is the result for every
    larger [maxIter]. *)
Theorem iterate_budget_monotone {M : MathObject} (x1 y1 x2 y2 s : float)
    (maxIter larger : nat) (tolerance : float) (guess r : Cat.Vec3) :
  (maxIter <= larger)%nat ->
  Cat.iterate x1 y1 x2 y2 s maxIter tolerance guess = Some r ->
  Cat.iterate x1 y1 x2 y2 s larger tolerance guess = Some r.
Proof.
  intros Hle H. replace larger with (maxIter + (larger - maxIter))%nat by lia.
  now apply iterate_more_fuel.
Qed.

Lemma iterate_budget_monotone_witness :
  Cat.iterate (M := Reference.math) 0 0 10 0 12 100 1e-10
    (3.4961294151728466, 5, -3.4961294151728466)
  = Some (4.6954152312650219, 5, -7.6188532072743547).
Proof.
  apply (iterate_budget_monotone (M := Reference.math) 0 0 10 0 12 20 100).
  - lia.
  - vm_compute. reflexivity.
Defined.

(** X4.  On an input that passes validation, [solveCatenary] returns the
    result of the first initial guess on which [newtonRaphson] returns
    non-null, and null when it returns null on all: the tests [result[0] > 0]
    and [error < 1e-6] of the driver never reject a result. *)
Theorem solveCatenary_first_converged {M : MathObject} (x1 y1 x2 y2 s : float) :
  (s <=? 0) = false ->
  (x1 =? x2) = false ->
  (s <? Cat.minArcLength x1 y1 x2 y2) = false ->
  Cat.solveCatenary ((x1, y1), (x2, y2)) s
  = Return (option_map paramsOf
              (firstConverged x1 y1 x2 y2 s
                 (Cat.initialGuesses x1 y1 x2 y2 s))).
Proof.
  intros Hs Hx Hmin. rewrite (validated_outcome _ _ _ _ _ Hs Hx Hmin).
  now rewrite tryGuesses_firstConverged.
Qed.

Lemma solveCatenary_first_converged_witness :
  Cat.solveCatenary (M := Reference.math) ((0, 0), (10, 0)) 12
  = Return (option_map paramsOf
              (firstConverged (M := Reference.math) 0 0 10 0 12
                 (Cat.initialGuesses (M := Reference.math) 0 0 10 0 12))).
Proof.
  apply (solveCatenary_first_converged (M := Reference.math) 0 0 10 0 12);
    reflexivity.
Defined.

(** ** Runs that cannot converge *)

Section Stuck.

Context {M : MathObject}.
Variables x1 y1 x2 y2 s : float.

(** A step that makes [a] NaN at every step size is rejected at every
    attempt. *)
Lemma lineSearchFrom_rejects (budget ls : nat) (stepSize : float)
    (params : Cat.Vec3) (delta : list float) (residual : float) :
  (forall st, fst (fst params) + st * get delta 0 = nan) ->
  Cat.lineSearchFrom x1 y1 x2 y2 s budget ls stepSize params delta residual
  = params.
Proof.
  intros H. revert ls stepSize.
  induction budget as [|budget IH]; intros ls stepSize; [reflexivity|].
  cbn [Cat.lineSearchFrom]. destruct params as [[p0 p1] p2].
  cbn [fst] in H. rewrite H. change (nan >? 0) with false. cbv iota.
  apply IH.
Qed.

(** Parameters that do not meet the tolerance and that the line search cannot
    leave end the run with [null]. *)
Lemma iterate_stuck (tolerance : float) (params : Cat.Vec3) :
  (norm3 (Cat.equations x1 y1 x2 y2 s params) <? tolerance) = false ->
  (forall delta,
      Cat.solveLinearSystem (Cat.jacobian x1 x2 params)
        (negated (Cat.equations x1 y1 x2 y2 s params)) = Return delta ->
      forall st, fst (fst params) + st * get delta 0 = nan) ->
  forall fuel, Cat.iterate x1 y1 x2 y2 s fuel tolerance params = None.
Proof.
  intros Hres Hnan fuel. induction fuel as [|fuel IH]; [reflexivity|].
  destruct (iterate_step x1 y1 x2 y2 s params fuel tolerance Hres)
    as (delta & Hdelta & ->).
  unfold Cat.lineSearch. rewrite lineSearchFrom_rejects; [exact IH|].
  exact (Hnan delta Hdelta).
Qed.

(** When no parameters meet the tolerance, every run ends with [null]. *)
Lemma iterate_never (tolerance : float) :
  (forall params,
      (norm3 (Cat.equations x1 y1 x2 y2 s params) <? tolerance) = false) ->
  forall fuel params, Cat.iterate x1 y1 x2 y2 s fuel tolerance params = None.
Proof.
  intros Hres fuel. induction fuel as [|fuel IH]; intros params; [reflexivity|].
  destruct (iterate_step x1 y1 x2 y2 s params fuel tolerance (Hres params))
    as (delta & _ & ->).
  apply IH.
Qed.

(** With [a <= 0] the residual is the sentinel, whose norm is plus infinity,
    and the Jacobian is the zero matrix, for which the solver returns three
    NaN. *)
Lemma iterate_nonpositive (p0 p1 p2 tolerance : float) (fuel : nat) :
  (p0 <=? 0) = true ->
  Cat.iterate x1 y1 x2 y2 s fuel tolerance (p0, p1, p2) = None.
Proof.
  intros Hle. apply iterate_stuck.
  - unfold Cat.equations, norm3. rewrite Hle. apply IEEE.ltb_infinity_l.
  - unfold Cat.equations, Cat.jacobian. rewrite Hle. intros delta Hdelta.
    apply Return_inj in Hdelta. subst delta. intros st. cbn [fst].
    change (get _ 0) with nan. now rewrite IEEE.mul_nan_r, IEEE.add_nan_r.
Qed.

(** With [a] NaN the residual norm is NaN, and so is every update of [a]. *)
Lemma iterate_nan (p1 p2 tolerance : float) (fuel : nat) :
  Cat.iterate x1 y1 x2 y2 s fuel tolerance (nan, p1, p2) = None.
Proof.
  apply iterate_stuck.
  - rewrite equations_nan. apply IEEE.ltb_nan_l.
  - intros delta _ st. apply IEEE.add_nan_l.
Qed.

(** The loop over the guesses returns [null] when the iteration does on each
    of them. *)
Lemma tryGuesses_none (guesses : list Cat.Vec3) :
  (forall guess, In guess guesses ->
                 Cat.newtonRaphson x1 y1 x2 y2 s guess = None) ->
  Cat.tryGuesses x1 y1 x2 y2 s guesses = None.
Proof.
  induction guesses as [|g rest IH]; intros H; [reflexivity|].
  rewrite tryGuesses_cons, (H g (or_introl eq_refl)).
  apply IH. intros g' Hin. apply H. now right.
Qed.

End Stuck.

(** With an arc length, an ordinate, an [a] or a [c] that is not finite, the
    residual norm is plus infinity or NaN, and below no tolerance. *)
Lemma residual_of_nonfinite {M : MathObject} (x1 y1 x2 y2 s : float)
    (params : Cat.Vec3) (tolerance : float) :
  is_finite y1 = false \/ is_finite y2 = false \/ is_finite s = false
  \/ is_finite (fst (fst params)) = false \/ is_finite (snd params) = false ->
  (norm3 (Cat.equations x1 y1 x2 y2 s params) <? tolerance) = false.
Proof.
  intros H. destruct params as [[p0 p1] p2]. cbn [fst snd] in H.
  unfold Cat.equations, norm3.
  destruct (p0 <=? 0); [apply IEEE.ltb_infinity_l|]. cbv zeta.
  apply IEEE.norm_of_nonfinite.
  destruct H as [H|[H|[H|[H|H]]]].
  - left. now apply IEEE.sub_nonfinite_r.
  - right. left. now apply IEEE.sub_nonfinite_r.
  - right. right. now apply IEEE.sub_nonfinite_r.
  - left.
    now apply IEEE.sub_nonfinite_l, IEEE.add_nonfinite_l, IEEE.mul_nonfinite_l.
  - left. now apply IEEE.sub_nonfinite_l, IEEE.add_nonfinite_r.
Qed.

(** X5.  The line search never leaves [a > 0]: from parameters with [a > 0]
    its outcome has [a > 0], whatever the step and the residual. *)
Theorem lineSearch_keeps_a_positive {M : MathObject} (x1 y1 x2 y2 s : float)
    (params : Cat.Vec3) (delta : list float) (residual : float) :
  (fst (fst params) >? 0) = true ->
  (fst (fst (Cat.lineSearch x1 y1 x2 y2 s params delta residual)) >? 0) = true.
Proof.
  intros Hpos. unfold Cat.lineSearch.
  destruct
    (lineSearchFrom_first x1 y1 x2 y2 s params delta residual 10 0 eq_refl)
    as [(k & _ & Hacc & _ & Hres)|[_ Hres]].
  - change (stepSizeAt 0) with 1.0 in Hres. rewrite Hres.
    unfold accepts, feasible in Hacc. apply andb_prop in Hacc as [Hf _].
    destruct (candidate params delta k) as [[np0 np1] np2]. exact Hf.
  - change (stepSizeAt 0) with 1.0 in Hres. now rewrite Hres.
Qed.

Lemma lineSearch_keeps_a_positive_witness :
  (fst (fst (Cat.lineSearch (M := Reference.math) 0 0 10 0 12
               (1, 0, 0) [-2048; 0; 0] 1)) >? 0) = true.
Proof.
  apply (lineSearch_keeps_a_positive (M := Reference.math) 0 0 10 0 12
           (1, 0, 0) [-2048; 0; 0] 1).
  reflexivity.
Defined.

(** X6.  [newtonRaphson] needs a guess with [a > 0]: from a guess whose [a]
    is zero, negative or NaN the residual norm is plus infinity or NaN, the
    line search rejects every update, and the result is [null]. *)
Theorem newtonRaphson_needs_positive_a {M : MathObject}
    (x1 y1 x2 y2 s p0 p1 p2 : float) :
  (p0 >? 0) = false ->
  Cat.newtonRaphson x1 y1 x2 y2 s (p0, p1, p2) = None.
Proof.
  intros Hgt. unfold Cat.newtonRaphson. destruct (p0 <=? 0) eqn:Hle.
  - now apply iterate_nonpositive.
  - rewrite (IEEE.nan_of_no_sign p0 Hle Hgt). apply iterate_nan.
Qed.

Lemma newtonRaphson_needs_positive_a_witness :
  Cat.newtonRaphson (M := Reference.math) 0 0 10 0 12 (-1, 5, 0) = None.
Proof.
  apply (newtonRaphson_needs_positive_a (M := Reference.math) 0 0 10 0 12).
  reflexivity.
Defined.

(** X7.  NaN as arc length passes the tests [s <= 0] and [s < minArcLength]:
    [solveCatenary] throws for equal x-coordinates only, and otherwise no
    guess converges and it returns [null]. *)
Theorem solveCatenary_nan_length {M : MathObject} (x1 y1 x2 y2 : float) :
  Cat.solveCatenary ((x1, y1), (x2, y2)) nan
  = if x1 =? x2 then Throw Cat.SameXCoordinates else Return None.
Proof.
  unfold Cat.solveCatenary. rewrite IEEE.leb_nan_l.
  destruct (x1 =? x2); [reflexivity|]. cbv zeta. rewrite IEEE.ltb_nan_l.
  f_equal. apply tryGuesses_none. intros guess _.
  apply iterate_never. intros params. apply residual_of_nonfinite.
  right. right. left. reflexivity.
Qed.

(** X8.  With an arc length or an ordinate that is not finite (NaN or an
    infinity), [solveCatenary] never returns parameters: it throws or returns
    [null]. *)
Theorem solveCatenary_needs_finite_data {M : MathObject}
    (x1 y1 x2 y2 s : float) (p : Params) :
  isFinite y1 = false \/ isFinite y2 = false \/ isFinite s = false ->
  Cat.solveCatenary ((x1, y1), (x2, y2)) s <> Return (Some p).
Proof.
  intros Hnf Hp. apply returned_by_tryGuesses in Hp.
  apply tryGuesses_verified in Hp as [Hv _]. unfold verifies in Hv.
  rewrite residual_of_nonfinite in Hv; [discriminate|].
  unfold isFinite in Hnf. tauto.
Qed.

Lemma solveCatenary_needs_finite_data_witness :
  Cat.solveCatenary (M := Reference.math) ((0, neg_infinity), (10, 0)) 12
  <> Return (Some {| a := 1; b := 5; c := 0 |}).
Proof.
  apply (solveCatenary_needs_finite_data (M := Reference.math)). now left.
Defined.

(** X9.  The parameters that [solveCatenary] returns have a finite [a] and a
    finite [c]. *)
Theorem solveCatenary_finite_result {M : MathObject} (x1 y1 x2 y2 s : float)
    (p : Params) :
  Cat.solveCatenary ((x1, y1), (x2, y2)) s = Return (Some p) ->
  isFinite (a p) = true /\ isFinite (c p) = true.
Proof.
  intros Hp. apply returned_by_tryGuesses in Hp.
  apply tryGuesses_verified in Hp as [Hv _]. unfold verifies in Hv.
  unfold isFinite. split.
  - destruct (is_finite (a p)) eqn:H; [reflexivity|].
    rewrite residual_of_nonfinite in Hv; [discriminate|]. cbn [fst snd]. tauto.
  - destruct (is_finite (c p)) eqn:H; [reflexivity|].
    rewrite residual_of_nonfinite in Hv; [discriminate|]. cbn [fst snd]. tauto.
Qed.

Lemma solveCatenary_finite_result_witness :
  isFinite (a {| a := 4.6954152312650219; b := 5;
                 c := -7.6188532072743547 |}) = true
  /\ isFinite (c {| a := 4.6954152312650219; b := 5;
                    c := -7.6188532072743547 |}) = true.
Proof.
  apply (solveCatenary_finite_result (M := Reference.math) 0 0 10 0 12).
  vm_compute. reflexivity.
Defined.

(** ** Partial pivoting, and the shape of the system *)

Ltac pivot_rows k :=
  cbv zeta; cbn [row nth set]; repeat split; try lia;
  repeat (destruct k as [|k]; try lia); cbn [row nth];
  eauto using IEEE.gtb_above, IEEE.gtb_chain, IEEE.gtb_asym, IEEE.gtb_irrefl.

(** X10.  Partial pivoting: in a matrix of three rows, the row that [findPivot]
    selects for column [i] is among the rows [i..2], the exchange puts it in
    row [i] and the former row [i] in its place, and afterwards no entry of
    column [i] in the rows [i..2] is greater in absolute value than the pivot
    [augmented[i][i]]. *)
Theorem findPivot_dominates (augmented : list (list float)) (i k : nat) :
  length augmented = 3%nat ->
  (i <= k < 3)%nat ->
  let maxRow := Cat.findPivot augmented i in
  let swapped := Cat.swapRows augmented i maxRow in
  (i <= maxRow < 3)%nat
  /\ row swapped i = row augmented maxRow
  /\ row swapped maxRow = row augmented i
  /\ (abs (get (row swapped k) i) >? abs (get (row swapped i) i)) = false.
Proof.
  intros Hlen Hk.
  destruct augmented as [|r0 [|r1 [|r2 [|r3 rest]]]]; try discriminate Hlen.
  assert (Hi : i = 0%nat \/ i = 1%nat \/ i = 2%nat) by lia.
  unfold Cat.findPivot, Cat.swapRows, Cat.range, Cat.n.
  destruct Hi as [-> | [-> | ->]];
    cbn [seq fold_left Nat.add Nat.sub row nth].
  - destruct (abs (get r1 0) >? abs (get r0 0)) eqn:H10; cbn [row nth].
    + destruct (abs (get r2 0) >? abs (get r1 0)) eqn:H21; pivot_rows k.
    + destruct (abs (get r2 0) >? abs (get r0 0)) eqn:H20; pivot_rows k.
  - destruct (abs (get r2 1) >? abs (get r1 1)) eqn:H21; pivot_rows k.
  - pivot_rows k.
Qed.

Lemma findPivot_dominates_witness :
  (0 <= Cat.findPivot [[1; 2; 3; 4]; [-5; 6; 7; 8]; [2; 1; 0; 1]]%float 0
   < 3)%nat
  /\ row (Cat.swapRows [[1; 2; 3; 4]; [-5; 6; 7; 8]; [2; 1; 0; 1]] 0
            (Cat.findPivot [[1; 2; 3; 4]; [-5; 6; 7; 8]; [2; 1; 0; 1]] 0)) 0
     = row [[1; 2; 3; 4]; [-5; 6; 7; 8]; [2; 1; 0; 1]]
         (Cat.findPivot [[1; 2; 3; 4]; [-5; 6; 7; 8]; [2; 1; 0; 1]] 0)
  /\ row (Cat.swapRows [[1; 2; 3; 4]; [-5; 6; 7; 8]; [2; 1; 0; 1]] 0
            (Cat.findPivot [[1; 2; 3; 4]; [-5; 6; 7; 8]; [2; 1; 0; 1]] 0))
       (Cat.findPivot [[1; 2; 3; 4]; [-5; 6; 7; 8]; [2; 1; 0; 1]] 0)
     = row [[1; 2; 3; 4]; [-5; 6; 7; 8]; [2; 1; 0; 1]] 0
  /\ (abs (get (row (Cat.swapRows [[1; 2; 3; 4]; [-5; 6; 7; 8]; [2; 1; 0; 1]]
                       0 (Cat.findPivot
                            [[1; 2; 3; 4]; [-5; 6; 7; 8]; [2; 1; 0; 1]] 0))
                  2) 0)
      >? abs (get (row (Cat.swapRows
                          [[1; 2; 3; 4]; [-5; 6; 7; 8]; [2; 1; 0; 1]] 0
                          (Cat.findPivot
                             [[1; 2; 3; 4]; [-5; 6; 7; 8]; [2; 1; 0; 1]] 0))
                     0) 0)) = false.
Proof.
  apply (findPivot_dominates [[1; 2; 3; 4]; [-5; 6; 7; 8]; [2; 1; 0; 1]] 0 2);
    [reflexivity|lia].
Defined.


(** A property that every turn of a loop keeps holds after the loop. *)
Lemma fold_left_invariant {S T : Type} (P : S -> Prop) (f : S -> T -> S)
    (l : list T) :
  (forall st x, In x l -> P st -> P (f st x)) ->
  forall st, P st -> P (fold_left f l st).
Proof.
  induction l as [|x l IH]; intros Hf st Hst; [exact Hst|].
  cbn [fold_left]. apply IH.
  - intros st' y Hy. apply Hf. now right.
  - apply Hf; [now left|exact Hst].
Qed.









(** ** The application file *)

(** X12.  [sortX] with its comparator [a[0] - b[0]] orders by [<] on the
    x-coordinates: it exchanges the points exactly when the second is
    strictly left of the first (a difference never underflows to zero, and
    one that overflows or is NaN has the right sign or keeps the order).  So
    its result is never in descending order, and sorting it again changes
    nothing. *)
Theorem sortX_sorted (P Q : Point) :
  App.sortX (P, Q) = (if fst Q <? fst P then (Q, P) else (P, Q))
  /\ (fst (snd (App.sortX (P, Q))) <? fst (fst (App.sortX (P, Q)))) = false
  /\ App.sortX (App.sortX (P, Q)) = App.sortX (P, Q).
Proof.
  unfold App.sortX. rewrite IEEE.sub_gtb_iff.
  destruct (fst Q <? fst P) eqn:H.
  - split; [reflexivity|]. cbn [fst snd]. rewrite IEEE.sub_gtb_iff.
    now rewrite (IEEE.ltb_asym _ _ H).
  - split; [reflexivity|]. cbn [fst snd]. rewrite IEEE.sub_gtb_iff.
    now rewrite H.
Qed.

(** X13.  The fixed-point solver needs its points in ascending order of x:
    given them in descending order it returns an object of three NaN. *)
Theorem fixedPoint_needs_ascending {M : MathObject} (x1 y1 x2 y2 s : float) :
  (x2 <? x1) = true ->
  exists p, App.solveCatenary ((x1, y1), (x2, y2)) s = Return p /\ allNaN p.
Proof.
  intros H. apply solveCatenary_degenerate.
  apply IEEE.div_sqrt_by_nonpositive. now apply IEEE.ltb_leb.
Qed.

Lemma fixedPoint_needs_ascending_witness :
  exists p,
    App.solveCatenary (M := Reference.math) ((10, 0), (0, 0)) 12 = Return p
    /\ allNaN p.
Proof.
  apply (fixedPoint_needs_ascending (M := Reference.math) 10 0 0 0 12).
  reflexivity.
Defined.

(** X14.  The fixed-point solver needs finite data: a coordinate or an arc
    length that is not finite (NaN or an infinity) makes the three fields of
    its object NaN. *)
Theorem fixedPoint_needs_finite_data {M : MathObject} (x1 y1 x2 y2 s : float) :
  isFinite x1 = false \/ isFinite y1 = false \/ isFinite x2 = false
  \/ isFinite y2 = false \/ isFinite s = false ->
  exists p, App.solveCatenary ((x1, y1), (x2, y2)) s = Return p /\ allNaN p.
Proof.
  unfold isFinite. intros H. apply solveCatenary_degenerate.
  apply IEEE.div_sqrt_of_nonfinite.
  destruct H as [H|[H|[H|[H|H]]]].
  - right. right. now apply IEEE.sub_nonfinite_r.
  - right. left. now apply IEEE.sub_nonfinite_r.
  - right. right. now apply IEEE.sub_nonfinite_l.
  - right. left. now apply IEEE.sub_nonfinite_l.
  - now left.
Qed.

Lemma fixedPoint_needs_finite_data_witness :
  exists p,
    App.solveCatenary (M := Reference.math) ((0, 0), (10, 0)) infinity
    = Return p
    /\ allNaN p.
Proof.
  apply (fixedPoint_needs_finite_data (M := Reference.math) 0 0 10 0 infinity).
  repeat right. reflexivity.
Defined.

(** X15.  The effect that clamps the arc length: for a length that is a
    number and bounds with [minLength <= maxLength], the length it leaves is
    within the bounds, it is the given length exactly when that was within
    the bounds, and running the effect again changes nothing. *)
Theorem clampLength_range (length minLength maxLength : float) :
  is_nan length = false ->
  (minLength <=? maxLength) = true ->
  let clamped := App.clampLength length minLength maxLength in
  (minLength <=? clamped) = true
  /\ (clamped <=? maxLength) = true
  /\ (clamped = length <->
      (minLength <=? length) = true /\ (length <=? maxLength) = true)
  /\ App.clampLength clamped minLength maxLength = clamped.
Proof.
  intros Hn Hle. cbv zeta. unfold App.clampLength, gtb.
  pose proof Hle as Hle'. apply IEEE.leb_iff in Hle' as (Hmin & Hmax & Hk).
  assert (H0 : (maxLength <? minLength) = false).
  { apply IEEE.ltb_false_iff. auto. }
  destruct (length <? minLength) eqn:H1.
  - rewrite IEEE.ltb_irrefl, H0.
    split; [|split; [exact Hle|split; [|reflexivity]]].
    + apply IEEE.leb_iff. repeat split; try assumption. lia.
    + split.
      * intros <-. now rewrite IEEE.ltb_irrefl in H1.
      * intros [H _]. apply IEEE.leb_iff in H. apply IEEE.ltb_iff in H1. lia.
  - apply IEEE.ltb_false_iff in H1 as [H1|[H1|H1]]; try congruence.
    destruct (maxLength <? length) eqn:H2.
    + rewrite H0, IEEE.ltb_irrefl.
      split; [exact Hle|]. split.
      { apply IEEE.leb_iff. repeat split; try assumption. lia. }
      split; [|reflexivity]. split.
      * intros <-. now rewrite IEEE.ltb_irrefl in H2.
      * intros [_ H]. apply IEEE.leb_iff in H. apply IEEE.ltb_iff in H2. lia.
    + pose proof H2 as H2'.
      apply IEEE.ltb_false_iff in H2' as [H2'|[H2'|H2']]; try congruence.
      assert (H3 : (length <? minLength) = false).
      { apply IEEE.ltb_false_iff. auto. }
      rewrite H3, H2. repeat split; auto.
Qed.

Lemma clampLength_range_witness :
  (10 <=? App.clampLength 250 10 210) = true
  /\ (App.clampLength 250 10 210 <=? 210) = true
  /\ (App.clampLength 250 10 210 = 250 <->
      (10 <=? 250) = true /\ (250 <=? 210) = true)
  /\ App.clampLength (App.clampLength 250 10 210) 10 210
     = App.clampLength 250 10 210.
Proof.
  apply (clampLength_range 250 10 210); reflexivity.
Defined.

(** ** The code in exact arithmetic *)

(** *** At the floats, the formulas are the code *)

Section FloatFormulas.

Context {M : MathObject}.

Lemma equations_formula (x1 y1 x2 y2 s a b c : float) :
  Cat.equations x1 y1 x2 y2 s (a, b, c)
  = if a <=? 0 then (infinity, infinity, infinity)
    else Formulas.equations floatArithmetic x1 y1 x2 y2 s a b c.
Proof. reflexivity. Qed.

Lemma jacobian_formula (x1 x2 a b c : float) :
  Cat.jacobian x1 x2 (a, b, c)
  = if a <=? 0 then [[0; 0; 0]; [0; 0; 0]; [0; 0; 0]]
    else Formulas.jacobian floatArithmetic x1 x2 a b.
Proof. reflexivity. Qed.

Lemma findPivot_formula :
  Cat.findPivot = Formulas.findPivot floatArithmetic.
Proof. reflexivity. Qed.

Lemma swapRows_formula : Cat.swapRows = Formulas.swapRows.
Proof. reflexivity. Qed.

Lemma eliminateRow_formula :
  Cat.eliminateRow = Formulas.eliminateRow floatArithmetic.
Proof. reflexivity. Qed.

Lemma forwardElimination_formula :
  Cat.forwardElimination = Formulas.forwardElimination floatArithmetic.
Proof.
  unfold Cat.forwardElimination, Formulas.forwardElimination.
  now rewrite findPivot_formula, swapRows_formula, eliminateRow_formula.
Qed.

Lemma backSubstitution_formula :
  Cat.backSubstitution = Formulas.backSubstitution floatArithmetic.
Proof. reflexivity. Qed.

Lemma solveLinearSystem_formula (A : list (list float)) (b : list float) :
  Cat.solveLinearSystem A b
  = Return (Formulas.solveLinearSystem floatArithmetic A b).
Proof.
  unfold Cat.solveLinearSystem, Formulas.solveLinearSystem.
  now rewrite forwardElimination_formula, backSubstitution_formula.
Qed.

(** One turn of the loop of the fixed-point solver. *)
Lemma iterateX_turn (budget : nat) (m x prevx : float) :
  App.iterateX (S budget) m x prevx
  = if PrimFloat.abs (x - prevx) >? App.TOO_SMALL
    then App.iterateX budget m (Formulas.turn floatArithmetic m x) x
    else x.
Proof. reflexivity. Qed.

(** The object of the fixed-point solver, from the value [X] of [x] after the
    loop. *)
Lemma fixedPoint_formula_at (x1 y1 x2 y2 s X : float) :
  X = (let m := sqrt (s * s - (y2 - y1) * (y2 - y1)) / (x2 - x1) in
       App.iterateX 100 m (acosh m + 1) (-1)) ->
  App.solveCatenary ((x1, y1), (x2, y2)) s
  = Return (paramsOf (Formulas.offsets floatArithmetic x1 y1 x2 y2 s X)).
Proof.
  intros HX. unfold App.solveCatenary. cbv zeta. cbv zeta in HX.
  rewrite <- HX. reflexivity.
Qed.

Lemma fixedPoint_formula (x1 y1 x2 y2 s : float) :
  let m := Formulas.ratio floatArithmetic x1 y1 x2 y2 s in
  App.solveCatenary ((x1, y1), (x2, y2)) s
  = Return
      (paramsOf
         (Formulas.offsets floatArithmetic x1 y1 x2 y2 s
            (App.iterateX 100 m (acosh m + 1) (-1)))).
Proof. intros m. apply fixedPoint_formula_at. reflexivity. Qed.

End FloatFormulas.

(** *** Over the real numbers *)

Module ExactFacts.

Import Reals Lra.
Local Open Scope R_scope.

(** *** The matrix of [jacobian] and the partial derivatives *)

Section Derivatives.

Variables x1 y1 x2 y2 s a b c : R.
Hypothesis Ha : 0 < a.

Ltac derive :=
  match goal with
  | |- derivable_pt_lim ?f ?x ?l =>
      let pr := fresh "pr" in
      assert (pr : derivable_pt f x) by (reg; unfold id; lra);
      apply (derive_pt_eq_1 f x l pr); reg; unfold id in *; try lra;
      unfold comp, Rsqr, Rdiv; try (field; lra)
  end.

Lemma d_eq1_a :
  derivable_pt_lim (fun t => t * cosh ((x1 - b) / t) + c - y1) a
    (cosh ((x1 - b) / a) - (x1 - b) / a * sinh ((x1 - b) / a)).
Proof. derive. Qed.

Lemma d_eq1_b :
  derivable_pt_lim (fun t => a * cosh ((x1 - t) / a) + c - y1) b
    (- sinh ((x1 - b) / a)).
Proof. derive. Qed.

Lemma d_eq1_c :
  derivable_pt_lim (fun t => a * cosh ((x1 - b) / a) + t - y1) c 1.
Proof. derive. Qed.

Lemma d_eq3_a :
  derivable_pt_lim
    (fun t => t * (sinh ((x2 - b) / t) - sinh ((x1 - b) / t)) - s) a
    (sinh ((x2 - b) / a) - sinh ((x1 - b) / a)
     - ((x2 - b) / a * cosh ((x2 - b) / a)
        - (x1 - b) / a * cosh ((x1 - b) / a))).
Proof. derive. Qed.

Lemma d_eq3_b :
  derivable_pt_lim
    (fun t => a * (sinh ((x2 - t) / a) - sinh ((x1 - t) / a)) - s) b
    (cosh ((x1 - b) / a) - cosh ((x2 - b) / a)).
Proof. derive. Qed.

Lemma d_eq3_c :
  derivable_pt_lim
    (fun t : R => a * (sinh ((x2 - b) / a) - sinh ((x1 - b) / a)) - s) c 0.
Proof. derive. Qed.

End Derivatives.

Lemma opposite_derivative (f : R -> R) (x l : R) :
  derivable_pt_lim f x (- l) -> derivable_pt_lim f x l -> l = 0.
Proof.
  intros H1 H2. pose proof (uniqueness_limite f x _ _ H1 H2). lra.
Qed.

(** X16.  In exact arithmetic and for [a > 0], the columns [a] and [c] of the
    matrix of [jacobian], and its entry J32, are the partial derivatives of
    the residuals of [equations]; the entries J12 and J22 are the negatives
    of the partial derivatives of the first two residuals in [b], so that
    they are these derivatives only where they are zero: the matrix is not
    the Jacobian matrix of the system. *)
Theorem jacobian_partial_derivatives (x1 y1 x2 y2 s a b c : R) :
  0 < a ->
  let f := Exact.residual x1 y1 x2 y2 s in
  let J := Exact.J x1 x2 a b in
  (derivable_pt_lim (fun t => f 0%nat t b c) a (J 0 0)%nat
   /\ derivable_pt_lim (fun t => f 1%nat t b c) a (J 1 0)%nat
   /\ derivable_pt_lim (fun t => f 2%nat t b c) a (J 2 0)%nat)
  /\ (derivable_pt_lim (fun t => f 0%nat a b t) c (J 0 2)%nat
      /\ derivable_pt_lim (fun t => f 1%nat a b t) c (J 1 2)%nat
      /\ derivable_pt_lim (fun t => f 2%nat a b t) c (J 2 2)%nat)
  /\ derivable_pt_lim (fun t => f 2%nat a t c) b (J 2 1)%nat
  /\ (derivable_pt_lim (fun t => f 0%nat a t c) b (- J 0 1)%nat
      /\ derivable_pt_lim (fun t => f 1%nat a t c) b (- J 1 1)%nat)
  /\ (derivable_pt_lim (fun t => f 0%nat a t c) b (J 0 1)%nat ->
      sinh ((x1 - b) / a) = 0)
  /\ (derivable_pt_lim (fun t => f 1%nat a t c) b (J 1 1)%nat ->
      sinh ((x2 - b) / a) = 0).
Proof.
  intros Ha. cbv zeta.
  split; [split; [|split]|
          split; [split; [|split]|split; [|split; [split|split]]]].
  - exact (d_eq1_a x1 y1 a b c Ha).
  - exact (d_eq1_a x2 y2 a b c Ha).
  - exact (d_eq3_a x1 x2 s a b Ha).
  - exact (d_eq1_c x1 y1 a b c).
  - exact (d_eq1_c x2 y2 a b c).
  - exact (d_eq3_c x1 x2 s a b c).
  - exact (d_eq3_b x1 x2 s a b Ha).
  - exact (d_eq1_b x1 y1 a b c Ha).
  - exact (d_eq1_b x2 y2 a b c Ha).
  - apply opposite_derivative. exact (d_eq1_b x1 y1 a b c Ha).
  - apply opposite_derivative. exact (d_eq1_b x2 y2 a b c Ha).
Qed.

Lemma jacobian_partial_derivatives_witness :
  derivable_pt_lim (fun t => Exact.residual 0 0 10 0 12 0%nat 1 t 0) 5
    (- Exact.J 0 10 1 5 0 1).
Proof.
  destruct (jacobian_partial_derivatives 0 0 10 0 12 1 5 0 ltac:(lra))
    as (_ & _ & _ & [H _] & _).
  exact H.
Defined.

(** *** Gaussian elimination *)

Ltac compute_rows :=
  cbn [fold_left Cat.range Cat.n seq Nat.sub Nat.add set rev app repeat
       Formulas.row Formulas.get nth
       Formulas.sub Formulas.mul Formulas.div Formulas.zero
       Formulas.undefined Exact.arithmetic].

Ltac compute_rows_in H :=
  cbn [fold_left Cat.range Cat.n seq Nat.sub Nat.add set rev app repeat
       Formulas.row Formulas.get nth
       Formulas.sub Formulas.mul Formulas.div Formulas.zero
       Formulas.undefined Exact.arithmetic] in H.

Lemma findPivot_in_rows (augmented : list (list R)) (i : nat) :
  (i < 3)%nat ->
  (i <= Formulas.findPivot Exact.arithmetic augmented i < 3)%nat.
Proof.
  intros Hi. unfold Formulas.findPivot, Cat.range, Cat.n.
  apply (fold_left_invariant (fun maxRow => (i <= maxRow < 3)%nat)); [|lia].
  intros maxRow k Hk Hmax. apply in_seq in Hk.
  destruct (Formulas.gtb _ _ _); lia.
Qed.

Lemma solves_rows (x r0 r1 r2 : list R) :
  Exact.solves x [r0; r1; r2]
  <-> Exact.solvesRow x r0 /\ Exact.solvesRow x r1 /\ Exact.solvesRow x r2.
Proof.
  unfold Exact.solves. split.
  - intros H.
    repeat split; [apply (H 0%nat)|apply (H 1%nat)|apply (H 2%nat)]; lia.
  - intros (H0 & H1 & H2) i Hi.
    destruct i as [|[|[|i]]]; try lia; assumption.
Qed.

(** Back substitution solves a triangular system with non-zero diagonal. *)
Lemma backSubstitution_solves
    (u00 u01 u02 u03 l10 u11 u12 u13 l20 l21 u22 u23 : R) :
  u00 <> 0 -> u11 <> 0 -> u22 <> 0 -> l10 = 0 -> l20 = 0 -> l21 = 0 ->
  Exact.solves
    (Formulas.backSubstitution Exact.arithmetic
       [[u00; u01; u02; u03]; [l10; u11; u12; u13]; [l20; l21; u22; u23]])
    [[u00; u01; u02; u03]; [l10; u11; u12; u13]; [l20; l21; u22; u23]].
Proof.
  intros H0 H1 H2 -> -> ->. apply solves_rows.
  unfold Formulas.backSubstitution, Exact.solvesRow. compute_rows.
  repeat split; field; auto.
Qed.

(** Subtracting a multiple of a row from another loses no solution. *)
Lemma row_combination (x : list R) (f r0 r1 r2 r3 s0 s1 s2 s3 : R) :
  Exact.solvesRow x [r0; r1; r2; r3] ->
  Exact.solvesRow x [s0 - f * r0; s1 - f * r1; s2 - f * r2; s3 - f * r3] ->
  Exact.solvesRow x [s0; s1; s2; s3].
Proof.
  unfold Exact.solvesRow. compute_rows. intros Hr Hs.
  apply Rminus_diag_uniq. apply Rminus_diag_eq in Hr, Hs.
  match goal with |- ?g = 0 =>
    match type of Hr with ?r = 0 =>
      match type of Hs with ?e = 0 =>
        replace g with (e + f * r) by ring
      end end end.
  rewrite Hr, Hs. ring.
Qed.

Lemma eliminated_entry (t q : R) : q <> 0 -> t - t / q * q = 0.
Proof. intros Hq. field. exact Hq. Qed.

Section Elimination.

Variables p s01 s02 s03 s10 s11 s12 s13 s20 s21 s22 s23 : R.

(** The two eliminations of column 0, and the elimination of column 1. *)
Lemma eliminate_column_0 :
  Formulas.eliminateRow Exact.arithmetic
    (Formulas.eliminateRow Exact.arithmetic
       [[p; s01; s02; s03]; [s10; s11; s12; s13]; [s20; s21; s22; s23]] 0 1)
    0 2
  = [[p; s01; s02; s03];
     [s10 - s10 / p * p; s11 - s10 / p * s01; s12 - s10 / p * s02;
      s13 - s10 / p * s03];
     [s20 - s20 / p * p; s21 - s20 / p * s01; s22 - s20 / p * s02;
      s23 - s20 / p * s03]].
Proof. reflexivity. Qed.

Lemma eliminate_column_1 :
  Formulas.eliminateRow Exact.arithmetic
    [[p; s01; s02; s03]; [s10; s11; s12; s13]; [s20; s21; s22; s23]] 1 2
  = [[p; s01; s02; s03]; [s10; s11; s12; s13];
     [s20; s21 - s21 / s11 * s11; s22 - s21 / s11 * s12;
      s23 - s21 / s11 * s13]].
Proof. reflexivity. Qed.

Variable x : list R.

Lemma column_0_solves :
  Exact.solves x
    [[p; s01; s02; s03];
     [s10 - s10 / p * p; s11 - s10 / p * s01; s12 - s10 / p * s02;
      s13 - s10 / p * s03];
     [s20 - s20 / p * p; s21 - s20 / p * s01; s22 - s20 / p * s02;
      s23 - s20 / p * s03]] ->
  Exact.solves x
    [[p; s01; s02; s03]; [s10; s11; s12; s13]; [s20; s21; s22; s23]].
Proof.
  rewrite !solves_rows. intros (H0 & H1 & H2).
  eauto using row_combination.
Qed.

Lemma column_1_solves :
  s10 = 0 ->
  Exact.solves x
    [[p; s01; s02; s03]; [s10; s11; s12; s13];
     [s20; s21 - s21 / s11 * s11; s22 - s21 / s11 * s12;
      s23 - s21 / s11 * s13]] ->
  Exact.solves x
    [[p; s01; s02; s03]; [s10; s11; s12; s13]; [s20; s21; s22; s23]].
Proof.
  intros ->. rewrite !solves_rows. intros (H0 & H1 & H2).
  repeat split; try assumption.
  apply (row_combination x (s21 / s11) 0 s11 s12 s13); [exact H1|].
  replace (s20 - s21 / s11 * 0) with s20 by ring. exact H2.
Qed.

End Elimination.

Lemma solves_exchange (x r0 r1 r2 : list R) :
  Exact.solves x [r0; r2; r1] -> Exact.solves x [r0; r1; r2].
Proof. rewrite !solves_rows. tauto. Qed.

(** The exchanges on a matrix of three rows. *)
Lemma swapRows_same (r0 r1 r2 : list R) (i : nat) :
  Formulas.swapRows [r0; r1; r2] i i = [r0; r1; r2].
Proof. destruct i as [|[|[|i]]]; reflexivity. Qed.

Lemma swapRows_1_2 (r0 r1 r2 : list R) :
  Formulas.swapRows [r0; r1; r2] 1 2 = [r0; r2; r1].
Proof. reflexivity. Qed.

Lemma findPivot_last (augmented : list (list R)) :
  Formulas.findPivot Exact.arithmetic augmented 2 = 2%nat.
Proof. reflexivity. Qed.

(** The three turns of the outer loop of the forward elimination. *)
Lemma forwardElimination_turns (augmented : list (list R)) :
  Formulas.forwardElimination Exact.arithmetic augmented
  = let S :=
      Formulas.swapRows augmented 0
        (Formulas.findPivot Exact.arithmetic augmented 0) in
    let E :=
      Formulas.eliminateRow Exact.arithmetic
        (Formulas.eliminateRow Exact.arithmetic S 0 1) 0 2 in
    let T :=
      Formulas.swapRows E 1 (Formulas.findPivot Exact.arithmetic E 1) in
    let U := Formulas.eliminateRow Exact.arithmetic T 1 2 in
    Formulas.swapRows U 2 (Formulas.findPivot Exact.arithmetic U 2).
Proof. reflexivity. Qed.

(** After the exchange for column 0: the rest of the elimination and the back
    substitution, for either row that the second exchange may select. *)
Lemma eliminated_solves
    (p s01 s02 s03 s10 s11 s12 s13 s20 s21 s22 s23 : R) (maxRow : nat) :
  (1 <= maxRow < 3)%nat ->
  let S := [[p; s01; s02; s03]; [s10; s11; s12; s13]; [s20; s21; s22; s23]] in
  let E :=
    Formulas.eliminateRow Exact.arithmetic
      (Formulas.eliminateRow Exact.arithmetic S 0 1) 0 2 in
  let U :=
    Formulas.eliminateRow Exact.arithmetic (Formulas.swapRows E 1 maxRow) 1 2 in
  let U' := Formulas.swapRows U 2 (Formulas.findPivot Exact.arithmetic U 2) in
  Exact.entry U' 0 0 <> 0 -> Exact.entry U' 1 1 <> 0 ->
  Exact.entry U' 2 2 <> 0 ->
  Exact.solves (Formulas.backSubstitution Exact.arithmetic U') S.
Proof.
  intros Hm. cbv zeta. rewrite eliminate_column_0.
  assert (Hc : maxRow = 1%nat \/ maxRow = 2%nat) by lia.
  destruct Hc as [-> | ->];
    rewrite ?swapRows_same, ?swapRows_1_2, eliminate_column_1, findPivot_last,
      swapRows_same;
    unfold Exact.entry; compute_rows;
    intros Hp Hq Hw; apply column_0_solves.
  - apply column_1_solves; [now apply eliminated_entry|].
    apply backSubstitution_solves; try assumption;
      now apply eliminated_entry.
  - apply solves_exchange, column_1_solves; [now apply eliminated_entry|].
    apply backSubstitution_solves; try assumption;
      now apply eliminated_entry.
Qed.

Lemma abs_nonpositive (x : R) : Rabs x <= 0 -> x = 0.
Proof.
  intros H. destruct (Req_dec x 0) as [Hx|Hx]; [exact Hx|].
  pose proof (Rabs_pos_lt x Hx). lra.
Qed.

(** The entry that [findPivot] selects is zero only in a zero column. *)
Lemma pivot_0_zero (a0 a1 a2 : R) (r0 r1 r2 : list R) :
  let augmented := [a0 :: r0; a1 :: r1; a2 :: r2] in
  Exact.entry augmented (Formulas.findPivot Exact.arithmetic augmented 0) 0 = 0 ->
  a0 = 0 /\ a1 = 0 /\ a2 = 0.
Proof.
  cbv zeta. unfold Formulas.findPivot, Exact.entry. compute_rows.
  cbn [Formulas.gtb Formulas.abs Exact.arithmetic].
  pose proof (Rabs_pos a0). pose proof (Rabs_pos a1). pose proof (Rabs_pos a2).
  destruct (Rlt_dec (Rabs a0) (Rabs a1)) as [H01|H01]; compute_rows;
    [destruct (Rlt_dec (Rabs a1) (Rabs a2)) as [H2|H2]
    |destruct (Rlt_dec (Rabs a0) (Rabs a2)) as [H2|H2]];
    compute_rows; intros Hz; rewrite Hz, Rabs_R0 in *;
    repeat split; try reflexivity; apply abs_nonpositive; lra.
Qed.

Lemma pivot_1_zero (a1 a2 : R) (r0 r1 r2 : list R) (z1 z2 : R) :
  let augmented := [r0; z1 :: a1 :: r1; z2 :: a2 :: r2] in
  Exact.entry augmented (Formulas.findPivot Exact.arithmetic augmented 1) 1 = 0 ->
  a1 = 0 /\ a2 = 0.
Proof.
  cbv zeta. unfold Formulas.findPivot, Exact.entry. compute_rows.
  cbn [Formulas.gtb Formulas.abs Exact.arithmetic].
  pose proof (Rabs_pos a1). pose proof (Rabs_pos a2).
  destruct (Rlt_dec (Rabs a1) (Rabs a2)) as [H2|H2];
    compute_rows; intros Hz; rewrite Hz, Rabs_R0 in *;
    repeat split; try reflexivity; apply abs_nonpositive; lra.
Qed.

Lemma minor_factor (e11 e12 e21 e22 : R) :
  e11 <> 0 -> e11 * (e22 - e21 / e11 * e12) = e11 * e22 - e12 * e21.
Proof. intros H. field. exact H. Qed.

(** With a non-zero determinant and a non-zero first pivot, the two other
    pivots are not zero either. *)
Lemma invertible_pivots
    (p s01 s02 s03 s10 s11 s12 s13 s20 s21 s22 s23 : R) :
  let S := [[p; s01; s02; s03]; [s10; s11; s12; s13]; [s20; s21; s22; s23]] in
  let E :=
    Formulas.eliminateRow Exact.arithmetic
      (Formulas.eliminateRow Exact.arithmetic S 0 1) 0 2 in
  let U :=
    Formulas.eliminateRow Exact.arithmetic
      (Formulas.swapRows E 1 (Formulas.findPivot Exact.arithmetic E 1)) 1 2 in
  let U' := Formulas.swapRows U 2 (Formulas.findPivot Exact.arithmetic U 2) in
  Exact.det3 S <> 0 -> p <> 0 ->
  Exact.entry U' 0 0 <> 0 /\ Exact.entry U' 1 1 <> 0
  /\ Exact.entry U' 2 2 <> 0.
Proof.
  cbv zeta. rewrite eliminate_column_0. intros Hdet Hp.
  set (z1 := s10 - s10 / p * p). set (z2 := s20 - s20 / p * p).
  set (e11 := s11 - s10 / p * s01). set (e12 := s12 - s10 / p * s02).
  set (e13 := s13 - s10 / p * s03).
  set (e21 := s21 - s20 / p * s01). set (e22 := s22 - s20 / p * s02).
  set (e23 := s23 - s20 / p * s03).
  assert (HM : e11 * e22 - e12 * e21 <> 0).
  { intros H0. apply Hdet. unfold Exact.det3, Exact.entry. compute_rows.
    transitivity (p * (e11 * e22 - e12 * e21)); [|rewrite H0; ring].
    unfold e11, e12, e21, e22. field. exact Hp. }
  pose proof (findPivot_in_rows
                [[p; s01; s02; s03]; [z1; e11; e12; e13]; [z2; e21; e22; e23]]
                1 ltac:(lia)) as Hm.
  pose proof (pivot_1_zero e11 e21 [p; s01; s02; s03] [e12; e13] [e22; e23]
                z1 z2) as Hz.
  cbv zeta in Hz.
  destruct (Formulas.findPivot Exact.arithmetic
              [[p; s01; s02; s03]; [z1; e11; e12; e13]; [z2; e21; e22; e23]] 1)
    as [|[|[|m]]]; try lia;
    unfold Exact.entry in Hz; compute_rows_in Hz;
    rewrite ?swapRows_same, ?swapRows_1_2, eliminate_column_1, findPivot_last,
      swapRows_same;
    unfold Exact.entry; compute_rows.
  - assert (Hq : e11 <> 0).
    { intros H0. destruct (Hz H0) as [-> ->]. apply HM. ring. }
    repeat split; try assumption.
    intros Hw. apply HM. rewrite <- (minor_factor e11 e12 e21 e22 Hq), Hw. ring.
  - assert (Hq : e21 <> 0).
    { intros H0. destruct (Hz H0) as [-> ->]. apply HM. ring. }
    repeat split; try assumption.
    intros Hw. apply HM.
    replace (e11 * e22 - e12 * e21) with (- (e21 * e12 - e22 * e11)) by ring.
    rewrite <- (minor_factor e21 e22 e11 e12 Hq), Hw. ring.
Qed.

(** After the exchange for column 0, with a non-zero determinant. *)
Lemma exchanged_solves
    (p s01 s02 s03 s10 s11 s12 s13 s20 s21 s22 s23 : R) :
  let S := [[p; s01; s02; s03]; [s10; s11; s12; s13]; [s20; s21; s22; s23]] in
  let E :=
    Formulas.eliminateRow Exact.arithmetic
      (Formulas.eliminateRow Exact.arithmetic S 0 1) 0 2 in
  let U :=
    Formulas.eliminateRow Exact.arithmetic
      (Formulas.swapRows E 1 (Formulas.findPivot Exact.arithmetic E 1)) 1 2 in
  let U' := Formulas.swapRows U 2 (Formulas.findPivot Exact.arithmetic U 2) in
  Exact.det3 S <> 0 -> p <> 0 ->
  Exact.solves (Formulas.backSubstitution Exact.arithmetic U') S.
Proof.
  cbv zeta. intros Hdet Hp.
  destruct (invertible_pivots p s01 s02 s03 s10 s11 s12 s13 s20 s21 s22 s23
              Hdet Hp) as (H0 & H1 & H2).
  apply eliminated_solves; try assumption. apply findPivot_in_rows. lia.
Qed.

(** X17.  In exact arithmetic, on a 3 x 3 matrix [A] with a determinant that
    is not zero, [solveLinearSystem] returns the solution of [A x = b]: the
    partial pivoting finds three pivots that are not zero, and the vector
    from the back substitution satisfies the three equations. *)
Theorem solveLinearSystem_exact (A : list (list R)) (b : list R) :
  length A = 3%nat ->
  Forall (fun row => length row = 3%nat) A ->
  Exact.det3 A <> 0 ->
  Exact.solves (Formulas.solveLinearSystem Exact.arithmetic A b)
    (Formulas.augment Exact.arithmetic A b).
Proof.
  intros Hlen Hrows.
  destruct A as [|r0 [|r1 [|r2 [|r3 rest]]]]; try discriminate Hlen.
  inversion Hrows as [|? ? H0 Hrows1]; subst.
  inversion Hrows1 as [|? ? H1 Hrows2]; subst.
  inversion Hrows2 as [|? ? H2 _]; subst.
  destruct r0 as [|a00 [|a01 [|a02 [|]]]]; try discriminate H0.
  destruct r1 as [|a10 [|a11 [|a12 [|]]]]; try discriminate H1.
  destruct r2 as [|a20 [|a21 [|a22 [|]]]]; try discriminate H2.
  unfold Formulas.solveLinearSystem, Formulas.augment, Exact.det3, Exact.entry.
  cbn [length seq combine map app]. compute_rows.
  generalize (Formulas.get Exact.arithmetic b 0), (Formulas.get Exact.arithmetic b 1),
    (Formulas.get Exact.arithmetic b 2).
  intros c0 c1 c2 Hdet. rewrite forwardElimination_turns. cbv zeta.
  set (aug := [[a00; a01; a02; c0]; [a10; a11; a12; c1]; [a20; a21; a22; c2]]).
  pose proof (findPivot_in_rows aug 0 ltac:(lia)) as Hm0.
  pose proof (pivot_0_zero a00 a10 a20 [a01; a02; c0] [a11; a12; c1]
                [a21; a22; c2]) as Hz.
  cbv zeta in Hz. fold aug in Hz.
  remember (Formulas.swapRows aug 0 (Formulas.findPivot Exact.arithmetic aug 0))
    as S eqn:HS.
  destruct (Formulas.findPivot Exact.arithmetic aug 0) as [|[|[|m0]]];
    try lia; unfold Formulas.swapRows, aug in HS; compute_rows_in HS;
    unfold Exact.entry, aug in Hz; compute_rows_in Hz; subst S.
  - apply exchanged_solves.
    + unfold Exact.det3, Exact.entry. compute_rows. exact Hdet.
    + intros Hp. destruct (Hz Hp) as (-> & -> & ->). apply Hdet. ring.
  - apply solves_rows.
    match goal with |- context [Formulas.backSubstitution _ ?U] =>
      assert (H : Exact.solves (Formulas.backSubstitution Exact.arithmetic U)
                    [[a10; a11; a12; c1]; [a00; a01; a02; c0];
                     [a20; a21; a22; c2]])
    end.
    { apply exchanged_solves.
      + unfold Exact.det3, Exact.entry. compute_rows.
        intros Hd. apply Hdet. lra.
      + intros Hp. destruct (Hz Hp) as (-> & -> & ->). apply Hdet. ring. }
    apply solves_rows in H. tauto.
  - apply solves_rows.
    match goal with |- context [Formulas.backSubstitution _ ?U] =>
      assert (H : Exact.solves (Formulas.backSubstitution Exact.arithmetic U)
                    [[a20; a21; a22; c2]; [a10; a11; a12; c1];
                     [a00; a01; a02; c0]])
    end.
    { apply exchanged_solves.
      + unfold Exact.det3, Exact.entry. compute_rows.
        intros Hd. apply Hdet. lra.
      + intros Hp. destruct (Hz Hp) as (-> & -> & ->). apply Hdet. ring. }
    apply solves_rows in H. tauto.
Qed.

Lemma solveLinearSystem_exact_witness :
  Exact.solves
    (Formulas.solveLinearSystem Exact.arithmetic
       [[2; 1; 1]; [4; 3; 1]; [8; 7; 0]] [-1; -2; -3])
    (Formulas.augment Exact.arithmetic
       [[2; 1; 1]; [4; 3; 1]; [8; 7; 0]] [-1; -2; -3]).
Proof.
  apply solveLinearSystem_exact.
  - reflexivity.
  - repeat constructor.
  - unfold Exact.det3, Exact.entry. compute_rows. lra.
Defined.

(** *** The fixed-point solver *)

Lemma sinh_difference (p q : R) :
  sinh (p + q) - sinh (p - q) = (exp p + / exp p) * sinh q.
Proof.
  unfold sinh, Rminus.
  replace (- (p + q)) with (- p + - q) by ring.
  replace (- (p + - q)) with (- p + q) by ring.
  rewrite !exp_plus, !exp_Ropp.
  pose proof (exp_pos p). pose proof (exp_pos q).
  field. split; lra.
Qed.

Lemma cosh_difference (p q : R) :
  cosh (p + q) - cosh (p - q) = (exp p - / exp p) * sinh q.
Proof.
  unfold cosh, sinh, Rminus.
  replace (- (p + q)) with (- p + - q) by ring.
  replace (- (p + - q)) with (- p + q) by ring.
  rewrite !exp_plus, !exp_Ropp.
  pose proof (exp_pos p). pose proof (exp_pos q).
  field. split; lra.
Qed.

(** [exp (ln ((s + v) / (s - v)) / 2)] for [|v| < s]. *)
Lemma exp_half_log (s v : R) :
  Rabs v < s ->
  exp (ln ((s + v) / (s - v)) / 2) = sqrt (s * s - v * v) / (s - v).
Proof.
  intros Hv. apply Rabs_def2 in Hv as [Hv1 Hv2].
  assert (Hu : 0 < (s + v) / (s - v)) by (apply Rdiv_lt_0_compat; lra).
  assert (Hr : 0 < s * s - v * v) by nra.
  apply Rsqr_inj.
  - left. apply exp_pos.
  - left. apply Rdiv_lt_0_compat; [now apply sqrt_lt_R0|lra].
  - unfold Rsqr. rewrite <- exp_plus.
    replace (ln ((s + v) / (s - v)) / 2 + ln ((s + v) / (s - v)) / 2)
      with (ln ((s + v) / (s - v))) by field.
    rewrite exp_ln by exact Hu.
    replace (sqrt (s * s - v * v) / (s - v) * (sqrt (s * s - v * v) / (s - v)))
      with (sqrt (s * s - v * v) * sqrt (s * s - v * v) / ((s - v) * (s - v)))
      by (field; lra).
    rewrite sqrt_sqrt by lra. field. lra.
Qed.

Lemma turn_fixed (m x : R) :
  cosh x <> m -> Formulas.turn Exact.arithmetic m x = x -> sinh x = m * x.
Proof.
  unfold Formulas.turn.
  cbn [Formulas.sub Formulas.div Formulas.mul Formulas.sinh Formulas.cosh
       Exact.arithmetic].
  intros Hd Hx.
  assert (H : (sinh x - m * x) / (cosh x - m) = 0) by lra.
  apply (Rmult_eq_compat_r (cosh x - m)) in H.
  replace ((sinh x - m * x) / (cosh x - m) * (cosh x - m))
    with (sinh x - m * x) in H by (field; lra).
  lra.
Qed.

(** X18.  In exact arithmetic, for [x1 < x2] and [|y2 - y1| < s], when the
    loop of the fixed-point solver is left at a value [x > 0] that one more
    turn does not change, the object it returns has [a > 0] and solves the
    system of [src/cat.tsx]: the three residuals of [equations] are zero. *)
Theorem fixedPoint_exact (x1 y1 x2 y2 s x : R) :
  x1 < x2 ->
  Rabs (y2 - y1) < s ->
  0 < x ->
  let m := Formulas.ratio Exact.arithmetic x1 y1 x2 y2 s in
  cosh x <> m ->
  Formulas.turn Exact.arithmetic m x = x ->
  let '(a, b, c) := Formulas.offsets Exact.arithmetic x1 y1 x2 y2 s x in
  0 < a /\ Formulas.equations Exact.arithmetic x1 y1 x2 y2 s a b c = (0, 0, 0).
Proof.
  intros Hh Hv Hx m Hd Hfix.
  pose proof (turn_fixed m x Hd Hfix) as Hs.
  pose proof (exp_half_log s (y2 - y1) Hv) as HE.
  unfold m, Formulas.ratio in Hs.
  unfold Formulas.offsets, Formulas.equations.
  cbn [Formulas.sub Formulas.div Formulas.mul Formulas.add Formulas.sinh
       Formulas.cosh Formulas.sqrt Formulas.log Formulas.two Formulas.half
       Exact.arithmetic] in *.
  set (h := x2 - x1) in *. set (v := y2 - y1) in *.
  set (r := sqrt (s * s - v * v)) in *.
  set (L := ln ((s + v) / (s - v))) in *.
  set (a := h / (2 * x)).
  assert (Hh' : 0 < h) by (unfold h; lra).
  apply Rabs_def2 in Hv as [Hv1 Hv2].
  assert (Hr2 : r * r = s * s - v * v) by (apply sqrt_sqrt; nra).
  assert (Hr : 0 < r) by (apply sqrt_lt_R0; nra).
  assert (Ha : 0 < a) by (apply Rdiv_lt_0_compat; lra).
  split; [exact Ha|].
  replace ((x1 - (x1 - (a * L - h) * / 2)) / a) with (L / 2 - x)
    by (unfold a; field; lra).
  replace ((x2 - (x1 - (a * L - h) * / 2)) / a) with (L / 2 + x)
    by (unfold a, h; field; lra).
  assert (H3 : a * (sinh (L / 2 + x) - sinh (L / 2 - x)) = s).
  { rewrite sinh_difference, HE, Hs.
    transitivity ((r * r + (s - v) * (s - v)) / (2 * (s - v)));
      [unfold a; field; lra|rewrite Hr2; field; lra]. }
  assert (H2 : a * (cosh (L / 2 + x) - cosh (L / 2 - x)) = v).
  { rewrite cosh_difference, HE, Hs.
    transitivity ((r * r - (s - v) * (s - v)) / (2 * (s - v)));
      [unfold a; field; lra|rewrite Hr2; field; lra]. }
  f_equal; [f_equal|]; unfold v in *; lra.
Qed.

Lemma fixedPoint_exact_witness :
  let '(a, b, c) := Formulas.offsets Exact.arithmetic 0 0 1 0 (sinh 1) 1 in
  0 < a
  /\ Formulas.equations Exact.arithmetic 0 0 1 0 (sinh 1) a b c = (0, 0, 0).
Proof.
  assert (Hs : 0 < sinh 1) by (rewrite <- sinh_0; apply sinh_lt; lra).
  assert (Hc : cosh 1 - sinh 1 <> 0).
  { unfold cosh, sinh. pose proof (exp_pos (Ropp 1)). lra. }
  assert (Hm : Formulas.ratio Exact.arithmetic 0 0 1 0 (sinh 1) = sinh 1).
  { unfold Formulas.ratio.
    cbn [Formulas.sub Formulas.div Formulas.mul Formulas.sqrt Exact.arithmetic].
    replace (sinh 1 * sinh 1 - (0 - 0) * (0 - 0)) with (Rsqr (sinh 1))
      by (unfold Rsqr; ring).
    rewrite sqrt_Rsqr by lra. field. }
  apply (fixedPoint_exact 0 0 1 0 (sinh 1) 1).
  - lra.
  - replace (0 - 0) with 0 by ring. rewrite Rabs_R0. exact Hs.
  - lra.
  - rewrite Hm. lra.
  - rewrite Hm. unfold Formulas.turn.
    cbn [Formulas.sub Formulas.div Formulas.mul Formulas.sinh Formulas.cosh
         Exact.arithmetic].
    field. exact Hc.
Defined.

(** In exact arithmetic, an arc length [0 <= s] below the distance of the two
    points is the case [m < 1] of the fixed-point solver. *)
Lemma ratio_below_chord (x1 y1 x2 y2 s : R) :
  x1 < x2 ->
  0 <= s ->
  s < sqrt ((x2 - x1) * (x2 - x1) + (y2 - y1) * (y2 - y1)) ->
  Formulas.ratio Exact.arithmetic x1 y1 x2 y2 s < 1.
Proof.
  intros Hx Hs Hlt. unfold Formulas.ratio.
  cbn [Formulas.sub Formulas.div Formulas.mul Formulas.sqrt Exact.arithmetic].
  set (h := x2 - x1) in *. set (v := y2 - y1) in *.
  assert (Hh : 0 < h) by (unfold h; lra).
  assert (Hd : 0 <= h * h + v * v) by nra.
  assert (H2 : s * s < h * h + v * v).
  { rewrite <- (sqrt_sqrt (h * h + v * v) Hd).
    pose proof (sqrt_pos (h * h + v * v)). nra. }
  assert (Hq : sqrt (s * s - v * v) < h).
  { destruct (Rle_lt_dec (s * s - v * v) 0) as [Hn|Hp].
    - rewrite (sqrt_neg_0 _ Hn). exact Hh.
    - rewrite <- (sqrt_square h) by lra. apply sqrt_lt_1; nra. }
  apply (Rmult_lt_reg_r h); [exact Hh|].
  replace (sqrt (s * s - v * v) / h * h) with (sqrt (s * s - v * v))
    by (field; lra).
  lra.
Qed.

End ExactFacts.

(** ** The two solvers side by side: the solutions that the iteration misses *)

Section SideBySide.

Import Reals.

(** C9 (the code departs from the claim).  On the valid inputs (0,0), (10,5)
    with [s = 15]; (0,0), (3,1) with [s = 4]; and (20,30), (70,60) with
    [s = 100], the fixed-point solver returns an object with [a > 0] whose
    residual norm under [equations] is below 1e-6, the acceptance test of the
    driver, and the Newton-Raphson solver returns [null] (reference [Math]
    object): the two solvers do not yield the same parameters within any
    tolerance.  The matrix that the iteration takes for the Jacobian is, for
    [a > 0], the one of the formulas [Formulas.jacobian]; in exact arithmetic
    its entries J12 and J22, which the comments of the code name the partial
    derivatives of the first two residuals in [b], are the negatives of
    these derivatives. *)
Theorem solvers_diverge :
  (newtonMisses (M := Reference.math) 0 0 10 5 15
   /\ newtonMisses (M := Reference.math) 0 0 3 1 4
   /\ newtonMisses (M := Reference.math) 20 30 70 60 100)
  /\ (forall (M : MathObject) (tol x1 y1 x2 y2 s : float),
        newtonMisses x1 y1 x2 y2 s -> ~ solversAgree tol x1 y1 x2 y2 s)
  /\ (forall (M : MathObject) (x1 x2 a b c : float),
        (a <=? 0) = false ->
        Cat.jacobian x1 x2 (a, b, c)
        = Formulas.jacobian floatArithmetic x1 x2 a b)
  /\ (forall x1 y1 x2 y2 s a b c : R,
        (0 < a)%R ->
        derivable_pt_lim (fun t => Exact.residual x1 y1 x2 y2 s 0 a t c) b
          (- Exact.J x1 x2 a b 0 1)%R
        /\ derivable_pt_lim (fun t => Exact.residual x1 y1 x2 y2 s 1 a t c) b
             (- Exact.J x1 x2 a b 1 1)%R).
Proof.
  split; [|split; [|split]].
  - unfold newtonMisses.
    split; [|split];
      (split; [vm_compute; reflexivity|];
       split; [vm_compute; reflexivity|];
       eexists; split; [vm_compute; reflexivity|];
       split; vm_compute; reflexivity).
  - intros M tol x1 y1 x2 y2 s (_ & Hnone & _) (p & q & Hp & _).
    rewrite Hnone in Hp. apply Return_inj in Hp. discriminate Hp.
  - intros M x1 x2 a b c Ha. rewrite jacobian_formula. now rewrite Ha.
  - intros x1 y1 x2 y2 s a b c Ha. split.
    + exact (ExactFacts.d_eq1_b x1 y1 a b c Ha).
    + exact (ExactFacts.d_eq1_b x2 y2 a b c Ha).
Qed.

End SideBySide.
